(** * go-game: the Snake and Tetris engines

    A shallow embedding of the two game engines of the repository
    (package [snake]: game.go and the key handling of snake.go; package
    [tetris]: game.go and the key handling of tetris.go) and of the menu of
    package [main], together with the properties of the engines stated in
    the specification and further properties of the code.

    Conventions of the embedding.
    - A Go [int] is a 64-bit two's complement integer: it is modelled as a
      [Z] and every arithmetic operation on a state field or a parameter is
      followed by [Int.wrap].  Slice lengths and [range] indices lie in
      [0, 2^63), so arithmetic on them alone is written without the wrap.
    - A Go run-time panic (index out of range, [Intn] of a non-positive
      bound) is the outcome [Panic]; a loop whose number of iterations is not
      bounded by its text takes a fuel argument and answers [Timeout] when
      the fuel is used up.
    - A [[][]int] is a [list (list Z)]; it is read and written by index,
      and both operations panic outside the slice.
    - The random source is a tape of raw draws and a cursor. *)

From Stdlib Require Import ZArith Lia Bool.
From Stdlib Require String.
From stdpp Require Import base tactics option list.

Open Scope Z_scope.

(** ** Machine integers *)

Module Int.

Definition wrap (z : Z) : Z := (z + 2 ^ 63) mod 2 ^ 64 - 2 ^ 63.

Definition add (a b : Z) : Z := wrap (a + b).
Definition sub (a b : Z) : Z := wrap (a - b).
Definition mul (a b : Z) : Z := wrap (a * b).
(* Go's [/] truncates toward zero. *)
Definition quot (a b : Z) : Z := wrap (Z.quot a b).

Definition in_range (z : Z) : Prop := - 2 ^ 63 <= z < 2 ^ 63.

End Int.

(** ** Outcomes of a call *)

Inductive outcome (A : Type) : Type :=
| Done (a : A)
| Panic
| Timeout.

Arguments Done {A} a.
Arguments Panic {A}.
Arguments Timeout {A}.

Definition bind {A B : Type} (m : outcome A) (k : A -> outcome B) : outcome B :=
  match m with
  | Done a => k a
  | Panic => Panic
  | Timeout => Timeout
  end.

Notation "x <- m ;; k" := (bind m (fun x => k))
  (at level 100, m at next level, right associativity).

(** ** Slices *)

Abbreviation Grid := (list (list Z)).

(* [l[i]] *)
Definition index {A : Type} (l : list A) (i : Z) : outcome A :=
  if i <? 0 then Panic
  else match l !! Z.to_nat i with
       | Some a => Done a
       | None => Panic
       end.

(* [b[y][x]] *)
Definition grid_get (b : Grid) (y x : Z) : outcome Z :=
  row <- index b y ;; index row x.

(* [b[y][x] = v] *)
Definition grid_set (b : Grid) (y x v : Z) : outcome Grid :=
  row <- index b y ;;
  _ <- index row x ;;
  Done (<[Z.to_nat y := <[Z.to_nat x := v]> row]> b).

(* A grid of [h] rows of [w] cells each. *)
Definition rect (h w : Z) (b : Grid) : Prop :=
  length b = Z.to_nat h /\ Forall (fun row => length row = Z.to_nat w) b.

(* The cell [b[i][j]], when there is one. *)
Definition cell (b : Grid) (i j : nat) : option Z :=
  match b !! i with
  | Some row => row !! j
  | None => None
  end.

(* [make([][]int, h)] with every row [make([]int, w)] *)
Definition make_grid (h w : Z) : Grid :=
  replicate (Z.to_nat h) (replicate (Z.to_nat w) 0).

(* [for y := range b { for x := range b[y] { b[y][x] = 0 } }] *)
Definition zero_grid (b : Grid) : Grid := map (map (fun _ => 0)) b.

(** ** The random source *)

Record RNG : Type := mkRNG { tape : nat -> Z; cursor : nat }.

(* [Intn(n)]: a value of [0, n); panics when [n <= 0]. *)
Definition Intn (r : RNG) (n : Z) : outcome (Z * RNG) :=
  if n <=? 0 then Panic
  else Done (tape r (cursor r) mod n, mkRNG (tape r) (S (cursor r))).

(** ** Key events of the terminal *)

Inductive Key : Type :=
| KeyEscape | KeyCtrlC | KeyEnter
| KeyUp | KeyDown | KeyLeft | KeyRight
| KeyRune | KeyOther.

Record EventKey : Type := mkEventKey { evKey : Key; evRune : Z }.

(* What the body of the main loop does with the loop itself. *)
Inductive Control (G : Type) : Type :=
| Continue (g : G)
| Return
| Exit.

Arguments Continue {G} g.
Arguments Return {G}.
Arguments Exit {G}.

Definition rune_r : Z := 114.
Definition rune_R : Z := 82.
Definition rune_p : Z := 112.
Definition rune_P : Z := 80.
Definition rune_q : Z := 113.
Definition rune_Q : Z := 81.
Definition rune_space : Z := 32.

(** * Package tetris *)

Module Tetris.

Definition BoardWidth : Z := 10.
Definition BoardHeight : Z := 20.

Definition Shapes : list Grid :=
  [ [[1; 1; 1; 1]];
    [[1; 1]; [1; 1]];
    [[0; 1; 0]; [1; 1; 1]];
    [[0; 1; 1]; [1; 1; 0]];
    [[1; 1; 0]; [0; 1; 1]];
    [[1; 0; 0]; [1; 1; 1]];
    [[0; 0; 1]; [1; 1; 1]] ].

Record Game : Type := mkGame {
  board : Grid;
  currPiece : Z;
  currShape : Grid;
  nextPiece : Z;
  pieceX : Z;
  pieceY : Z;
  score : Z;
  lines : Z;
  level : Z;
  paused : bool;
  gameOver : bool;
  rng : RNG
}.

Definition set_board (g : Game) (v : Grid) : Game :=
  mkGame v (currPiece g) (currShape g) (nextPiece g) (pieceX g) (pieceY g)
         (score g) (lines g) (level g) (paused g) (gameOver g) (rng g).
Definition set_currPiece (g : Game) (v : Z) : Game :=
  mkGame (board g) v (currShape g) (nextPiece g) (pieceX g) (pieceY g)
         (score g) (lines g) (level g) (paused g) (gameOver g) (rng g).
Definition set_currShape (g : Game) (v : Grid) : Game :=
  mkGame (board g) (currPiece g) v (nextPiece g) (pieceX g) (pieceY g)
         (score g) (lines g) (level g) (paused g) (gameOver g) (rng g).
Definition set_nextPiece (g : Game) (v : Z) : Game :=
  mkGame (board g) (currPiece g) (currShape g) v (pieceX g) (pieceY g)
         (score g) (lines g) (level g) (paused g) (gameOver g) (rng g).
Definition set_pieceX (g : Game) (v : Z) : Game :=
  mkGame (board g) (currPiece g) (currShape g) (nextPiece g) v (pieceY g)
         (score g) (lines g) (level g) (paused g) (gameOver g) (rng g).
Definition set_pieceY (g : Game) (v : Z) : Game :=
  mkGame (board g) (currPiece g) (currShape g) (nextPiece g) (pieceX g) v
         (score g) (lines g) (level g) (paused g) (gameOver g) (rng g).
Definition set_score (g : Game) (v : Z) : Game :=
  mkGame (board g) (currPiece g) (currShape g) (nextPiece g) (pieceX g) (pieceY g)
         v (lines g) (level g) (paused g) (gameOver g) (rng g).
Definition set_lines (g : Game) (v : Z) : Game :=
  mkGame (board g) (currPiece g) (currShape g) (nextPiece g) (pieceX g) (pieceY g)
         (score g) v (level g) (paused g) (gameOver g) (rng g).
Definition set_level (g : Game) (v : Z) : Game :=
  mkGame (board g) (currPiece g) (currShape g) (nextPiece g) (pieceX g) (pieceY g)
         (score g) (lines g) v (paused g) (gameOver g) (rng g).
Definition set_paused (g : Game) (v : bool) : Game :=
  mkGame (board g) (currPiece g) (currShape g) (nextPiece g) (pieceX g) (pieceY g)
         (score g) (lines g) (level g) v (gameOver g) (rng g).
Definition set_gameOver (g : Game) (v : bool) : Game :=
  mkGame (board g) (currPiece g) (currShape g) (nextPiece g) (pieceX g) (pieceY g)
         (score g) (lines g) (level g) (paused g) v (rng g).
Definition set_rng (g : Game) (v : RNG) : Game :=
  mkGame (board g) (currPiece g) (currShape g) (nextPiece g) (pieceX g) (pieceY g)
         (score g) (lines g) (level g) (paused g) (gameOver g) v.

Definition NewGame (r : RNG) : Game :=
  mkGame (make_grid BoardHeight BoardWidth) 0 [] 0
         (BoardWidth / 2 - 1) 0 0 0 1 false false r.

(** *** collides *)

Fixpoint collides_row (g : Game) (y x : Z) (row : list Z) : outcome bool :=
  match row with
  | [] => Done false
  | cell :: rest =>
      if cell =? 1 then
        let boardX := Int.add (pieceX g) x in
        let boardY := Int.add (pieceY g) y in
        if (boardX <? 0) || (boardX >=? BoardWidth) || (boardY >=? BoardHeight)
        then Done true
        else
          hit <- (if boardY >=? 0
                  then v <- grid_get (board g) boardY boardX ;; Done (negb (v =? 0))
                  else Done false) ;;
          if hit then Done true else collides_row g y (x + 1) rest
      else collides_row g y (x + 1) rest
  end.

Fixpoint collides_rows (g : Game) (y : Z) (rows : Grid) : outcome bool :=
  match rows with
  | [] => Done false
  | row :: rest =>
      c <- collides_row g y 0 row ;;
      if c then Done true else collides_rows g (y + 1) rest
  end.

Definition collides (g : Game) : outcome bool :=
  collides_rows g 0 (currShape g).

(** *** spawnPiece *)

Definition spawnPiece (g : Game) : outcome Game :=
  g1 <- (if nextPiece g =? 0
         then d <- Intn (rng g) (Z.of_nat (length Shapes)) ;;
              let '(v, r) := d in
              Done (set_currPiece (set_rng g r) v)
         else Done (set_currPiece g (Int.sub (nextPiece g) 1))) ;;
  shape <- index Shapes (currPiece g1) ;;
  let g2 := set_currShape g1 shape in
  first <- index (currShape g2) 0 ;;
  let g3 := set_pieceX g2 (BoardWidth / 2 - Z.of_nat (length first) / 2) in
  let g4 := set_pieceY g3 0 in
  d <- Intn (rng g4) (Z.of_nat (length Shapes)) ;;
  let '(v, r) := d in
  let g5 := set_nextPiece (set_rng g4 r) (v + 1) in
  c <- collides g5 ;;
  Done (if c then set_gameOver g5 true else g5).

(** *** rotate *)

Fixpoint rotate_row (rotated : Grid) (rows y x : Z) (row : list Z) : outcome Grid :=
  match row with
  | [] => Done rotated
  | cell :: rest =>
      rotated' <- grid_set rotated x (rows - 1 - y) cell ;;
      rotate_row rotated' rows y (x + 1) rest
  end.

Fixpoint rotate_rows (rotated : Grid) (rows y : Z) (shape : Grid) : outcome Grid :=
  match shape with
  | [] => Done rotated
  | row :: rest =>
      rotated' <- rotate_row rotated rows y 0 row ;;
      rotate_rows rotated' rows (y + 1) rest
  end.

Definition rotate (g : Game) : outcome Game :=
  let rows := Z.of_nat (length (currShape g)) in
  first <- index (currShape g) 0 ;;
  let cols := Z.of_nat (length first) in
  rotated <- rotate_rows (make_grid cols rows) rows 0 (currShape g) ;;
  let oldShape := currShape g in
  let g1 := set_currShape g rotated in
  c <- collides g1 ;;
  Done (if c then set_currShape g1 oldShape else g1).

(** *** move and drop *)

Definition move (g : Game) (dx dy : Z) : outcome (Game * bool) :=
  let g1 := set_pieceX g (Int.add (pieceX g) dx) in
  let g2 := set_pieceY g1 (Int.add (pieceY g1) dy) in
  c <- collides g2 ;;
  if c then
    let g3 := set_pieceX g2 (Int.sub (pieceX g2) dx) in
    let g4 := set_pieceY g3 (Int.sub (pieceY g3) dy) in
    Done (g4, false)
  else Done (g2, true).

(** *** lockPiece *)

Fixpoint lock_row (g : Game) (b : Grid) (y x : Z) (row : list Z) : outcome Grid :=
  match row with
  | [] => Done b
  | cell :: rest =>
      b' <- (if cell =? 1 then
               let boardY := Int.add (pieceY g) y in
               let boardX := Int.add (pieceX g) x in
               if (boardY >=? 0) && (boardY <? BoardHeight)
                  && (boardX >=? 0) && (boardX <? BoardWidth)
               then grid_set b boardY boardX (Int.add (currPiece g) 1)
               else Done b
             else Done b) ;;
      lock_row g b' y (x + 1) rest
  end.

Fixpoint lock_rows (g : Game) (b : Grid) (y : Z) (shape : Grid) : outcome Grid :=
  match shape with
  | [] => Done b
  | row :: rest =>
      b' <- lock_row g b y 0 row ;;
      lock_rows g b' (y + 1) rest
  end.

Definition lockPiece (g : Game) : outcome Game :=
  b <- lock_rows g (board g) 0 (currShape g) ;;
  Done (set_board g b).

(** *** clearLines *)

(* [for x := 0; x < BoardWidth; x++ { if board[y][x] == 0 { complete = false; break } }];
   [n] counts the columns that remain. *)
Fixpoint row_complete (b : Grid) (y : Z) (n : nat) (x : Z) : outcome bool :=
  match n with
  | O => Done true
  | S n' =>
      v <- grid_get b y x ;;
      if v =? 0 then Done false else row_complete b y n' (x + 1)
  end.

(* [for x := 0; x < BoardWidth; x++ { board[removeY][x] = board[removeY-1][x] }] *)
Fixpoint copy_row (b : Grid) (removeY : Z) (n : nat) (x : Z) : outcome Grid :=
  match n with
  | O => Done b
  | S n' =>
      v <- grid_get b (removeY - 1) x ;;
      b' <- grid_set b removeY x v ;;
      copy_row b' removeY n' (x + 1)
  end.

(* [for removeY := y; removeY > 0; removeY-- { ... }], with [removeY] the counter *)
Fixpoint shift_down (b : Grid) (removeY : nat) : outcome Grid :=
  match removeY with
  | O => Done b
  | S r =>
      b' <- copy_row b (Z.of_nat removeY) (Z.to_nat BoardWidth) 0 ;;
      shift_down b' r
  end.

(* [for x := 0; x < BoardWidth; x++ { board[0][x] = 0 }] *)
Fixpoint clear_top (b : Grid) (n : nat) (x : Z) : outcome Grid :=
  match n with
  | O => Done b
  | S n' =>
      b' <- grid_set b 0 x 0 ;;
      clear_top b' n' (x + 1)
  end.

(* The scan [for y := BoardHeight - 1; y >= 0; y-- { ... }].  A cleared row
   makes the body end with [y++], so the same index is examined again and the
   number of iterations is not fixed by the text: the loop takes fuel. *)
Fixpoint clear_scan (fuel : nat) (b : Grid) (y : Z) (linesCleared : Z)
  : outcome (Grid * Z) :=
  match fuel with
  | O => Timeout
  | S fuel' =>
      if y >=? 0 then
        complete <- row_complete b y (Z.to_nat BoardWidth) 0 ;;
        if complete then
          b1 <- shift_down b (Z.to_nat y) ;;
          b2 <- clear_top b1 (Z.to_nat BoardWidth) 0 ;;
          clear_scan fuel' b2 y (linesCleared + 1)
        else clear_scan fuel' b (y - 1) linesCleared
      else Done (b, linesCleared)
  end.

Definition scoreTable : list Z := [0; 100; 300; 500; 800].

Definition clearLines_fuel (fuel : nat) (g : Game) : outcome Game :=
  s <- clear_scan fuel (board g) (BoardHeight - 1) 0 ;;
  let '(b, linesCleared) := s in
  let g1 := set_board g b in
  if linesCleared >? 0 then
    let g2 := set_lines g1 (Int.add (lines g1) linesCleared) in
    points <- index scoreTable linesCleared ;;
    let g3 := set_score g2 (Int.add (score g2) (Int.mul points (level g2))) in
    Done (set_level g3 (Int.add (Int.quot (lines g3) 10) 1))
  else Done g1.

(* Every iteration of the scan either moves one row up or removes one
   complete row, and a board has [BoardHeight] rows: twice the height, and
   one more iteration for the exit test, always suffices
   (see [clear_scan_enough]). *)
Definition clearLines (g : Game) : outcome Game :=
  clearLines_fuel (Z.to_nat (2 * BoardHeight + 1)) g.

(** *** drop *)

Definition drop (g : Game) : outcome (Game * bool) :=
  m <- move g 0 1 ;;
  let '(g1, moved) := m in
  if moved then Done (g1, true)
  else
    g2 <- lockPiece g1 ;;
    g3 <- clearLines g2 ;;
    g4 <- spawnPiece g3 ;;
    Done (g4, false).

(** *** getGhostPosition *)

(* The result is [canMove]. *)
Fixpoint ghost_row (g : Game) (ghostY y x : Z) (row : list Z) : outcome bool :=
  match row with
  | [] => Done true
  | cell :: rest =>
      if cell =? 1 then
        let boardX := Int.add (pieceX g) x in
        let boardY := Int.add (Int.add ghostY y) 1 in
        if boardY >=? BoardHeight then Done false
        else
          hit <- (if boardY >=? 0
                  then v <- grid_get (board g) boardY boardX ;; Done (negb (v =? 0))
                  else Done false) ;;
          if hit then Done false else ghost_row g ghostY y (x + 1) rest
      else ghost_row g ghostY y (x + 1) rest
  end.

Fixpoint ghost_rows (g : Game) (ghostY y : Z) (rows : Grid) : outcome bool :=
  match rows with
  | [] => Done true
  | row :: rest =>
      canMove <- ghost_row g ghostY y 0 row ;;
      if canMove then ghost_rows g ghostY (y + 1) rest else Done false
  end.

(* The unbounded [for { ... }] on [ghostY]. *)
Fixpoint ghost_loop (fuel : nat) (g : Game) (ghostY : Z) : outcome Z :=
  match fuel with
  | O => Timeout
  | S fuel' =>
      canMove <- ghost_rows g ghostY 0 (currShape g) ;;
      if canMove then ghost_loop fuel' g (Int.add ghostY 1) else Done ghostY
  end.

Definition getGhostPosition (fuel : nat) (g : Game) : outcome (Z * Z) :=
  ghostY <- ghost_loop fuel g (pieceY g) ;;
  Done (pieceX g, ghostY).

(** *** reset and getDropInterval *)

Definition reset (g : Game) : outcome Game :=
  let g1 := set_board g (zero_grid (board g)) in
  let g2 := set_score g1 0 in
  let g3 := set_lines g2 0 in
  let g4 := set_level g3 1 in
  let g5 := set_nextPiece g4 0 in
  let g6 := set_paused g5 false in
  let g7 := set_gameOver g6 false in
  spawnPiece g7.

Definition getDropInterval (g : Game) : outcome Z :=
  if level g =? 0 then Panic
  else
    let interval := Int.quot 500 (level g) in
    Done (if interval <? 50 then 50 else interval).

(** *** The main loop of [Run] (tetris.go) *)

(* [for game.drop() { }] *)
Fixpoint hardDrop (fuel : nat) (g : Game) : outcome Game :=
  match fuel with
  | O => Timeout
  | S fuel' =>
      d <- drop g ;;
      let '(g', moved) := d in
      if moved then hardDrop fuel' g' else Done g'
  end.

Definition is_rune (ev : EventKey) (a b : Z) : bool :=
  (evRune ev =? a) || (evRune ev =? b).

Definition is_key (ev : EventKey) (k : Key) : bool :=
  match evKey ev, k with
  | KeyEscape, KeyEscape | KeyCtrlC, KeyCtrlC | KeyEnter, KeyEnter
  | KeyUp, KeyUp | KeyDown, KeyDown | KeyLeft, KeyLeft | KeyRight, KeyRight
  | KeyRune, KeyRune | KeyOther, KeyOther => true
  | _, _ => false
  end.

(* The [*tcell.EventKey] case of the event switch.  Rendering only reads the
   state and is left out. *)
Definition handleKey (fuel : nat) (ev : EventKey) (g : Game) : outcome (Control Game) :=
  if is_key ev KeyEscape then Done Return
  else if is_key ev KeyCtrlC || is_rune ev rune_q rune_Q then Done Exit
  else if gameOver g then
    if is_rune ev rune_r rune_R
    then g' <- reset g ;; Done (Continue g')
    else Done (Continue g)
  else if is_rune ev rune_p rune_P then Done (Continue (set_paused g (negb (paused g))))
  else if paused g then Done (Continue g)
  else
    match evKey ev with
    | KeyLeft => m <- move g (-1) 0 ;; Done (Continue (fst m))
    | KeyRight => m <- move g 1 0 ;; Done (Continue (fst m))
    | KeyDown => d <- drop g ;; Done (Continue (fst d))
    | KeyUp => g' <- rotate g ;; Done (Continue g')
    | KeyRune =>
        if evRune ev =? rune_space
        then g' <- hardDrop fuel g ;; Done (Continue g')
        else Done (Continue g)
    | _ => Done (Continue g)
    end.

(* The automatic fall, once the drop interval has elapsed. *)
Definition tick (g : Game) : outcome Game :=
  if negb (gameOver g) && negb (paused g)
  then d <- drop g ;; Done (fst d)
  else Done g.

(* [game := NewGame(); game.spawnPiece()] *)
Definition start (r : RNG) : outcome Game := spawnPiece (NewGame r).

(** *** Vocabulary of the statements *)

(* The cell [(x, y)] of the shape is filled. *)
Definition filled (shape : Grid) (y x : nat) : Prop :=
  exists row, shape !! y = Some row /\ row !! x = Some 1.

(* [rotated] is the quarter turn of [shape]:
   [rotated[x][rows-1-y] = shape[y][x]], with the two dimensions exchanged. *)
Definition clockwise_of (shape rotated : Grid) : Prop :=
  (exists cols : nat,
     rect (Z.of_nat cols) (Z.of_nat (length shape)) rotated
     /\ Forall (fun row => length row = cols) shape)
  /\ forall (y x : nat) (v : Z),
       cell shape y x = Some v -> cell rotated x (length shape - 1 - y) = Some v.

(* A row is complete when every column is non-zero. *)
Definition complete (row : list Z) : bool :=
  forallb (fun v => negb (v =? 0)) row.

Definition zero_row : list Z := replicate (Z.to_nat BoardWidth) 0.

Definition complete_rows (b : Grid) : Grid := filter (fun row => complete row = true) b.
Definition kept_rows (b : Grid) : Grid := filter (fun row => complete row = false) b.

Definition count_complete (b : Grid) : Z := Z.of_nat (length (complete_rows b)).

(* The board without its complete rows: the other rows keep their order and
   move down past the removed ones, and as many empty rows come in on top. *)
Definition compacted (b : Grid) : Grid :=
  replicate (length (complete_rows b)) zero_row ++ kept_rows b.

(* The state after [k > 0] rows were cleared for [points] points a level. *)
Definition after_clear (g : Game) (k points : Z) : Game :=
  let lines' := Int.add (lines g) k in
  mkGame (compacted (board g)) (currPiece g) (currShape g) (nextPiece g)
         (pieceX g) (pieceY g)
         (Int.add (score g) (Int.mul points (level g)))
         lines'
         (Int.add (Int.quot lines' 10) 1)
         (paused g) (gameOver g) (rng g).

(* The board coordinates of the cell [(x, y)] of the current shape. *)
Definition boardX_of (g : Game) (x : nat) : Z := Int.add (pieceX g) (Z.of_nat x).
Definition boardY_of (g : Game) (y : nat) : Z := Int.add (pieceY g) (Z.of_nat y).

(* The board holds a non-zero value at [(x, y)], a cell of the board. *)
Definition occupied (b : Grid) (y x : Z) : Prop :=
  0 <= y < BoardHeight /\ 0 <= x < BoardWidth /\
  exists row v, b !! Z.to_nat y = Some row /\ row !! Z.to_nat x = Some v /\ v <> 0.

(* The three ways in which one cell of the piece makes [collides] fail. *)
Definition cell_hits (g : Game) (y x : nat) : Prop :=
  boardX_of g x < 0 \/ boardX_of g x >= BoardWidth
  \/ boardY_of g y >= BoardHeight
  \/ (boardY_of g y >= 0 /\ occupied (board g) (boardY_of g y) (boardX_of g x)).

(* The main loop fed with a list of key events. *)
Fixpoint run_keys (fuel : nat) (evs : list EventKey) (g : Game) : outcome Game :=
  match evs with
  | [] => Done g
  | ev :: rest =>
      c <- handleKey fuel ev g ;;
      match c with
      | Continue g' => run_keys fuel rest g'
      | Return | Exit => Done g
      end
  end.

(* [collides] reads the board, the shape and the position only. *)
Definition collides_at (b : Grid) (x y : Z) (shape : Grid) : outcome bool :=
  collides (mkGame b 0 shape 0 x y 0 0 0 false false (mkRNG (fun _ => 0) 0)).

(* The state in which [move] tests for a collision. *)
Definition offset (g : Game) (dx dy : Z) : Game :=
  set_pieceY (set_pieceX g (Int.add (pieceX g) dx)) (Int.add (pieceY g) dy).

(* [n] calls of [drop] in a row, each of which answered [true]. *)
Inductive falls : Game -> nat -> Game -> Prop :=
| falls_O (g : Game) : falls g O g
| falls_S (g g1 g2 : Game) (n : nat) :
    drop g = Done (g1, true) -> falls g1 n g2 -> falls g (S n) g2.

(* What [drop] does with a piece that cannot fall any further. *)
Definition settle (g : Game) : outcome Game :=
  g2 <- lockPiece g ;;
  g3 <- clearLines g2 ;;
  spawnPiece g3.

(* The quarter turn as a function: the row [x] of the result is the column
   [x] of the shape, read from the last row up. *)
Definition quarter_turn (shape : Grid) : Grid :=
  match shape with
  | [] => []
  | first :: _ =>
      (fun x => reverse ((fun row => nth x row 0) <$> shape))
        <$> seq 0 (length first)
  end.

(* The states that [Run] goes through. *)
Inductive reachable : Game -> Prop :=
| reach_start (r : RNG) (g : Game) :
    start r = Done g -> reachable g
| reach_key (fuel : nat) (ev : EventKey) (g g' : Game) :
    reachable g -> handleKey fuel ev g = Done (Continue g') -> reachable g'
| reach_tick (g g' : Game) :
    reachable g -> tick g = Done g' -> reachable g'.

(* A shape is a rectangle of at most four rows and four columns with a
   filled cell. *)
Definition shape_ok (shape : Grid) : Prop :=
  exists rows cols : nat,
    (1 <= rows <= 4)%nat /\ (1 <= cols <= 4)%nat
    /\ rect (Z.of_nat rows) (Z.of_nat cols) shape
    /\ exists y x, filled shape y x.

(* Every cell is empty or holds the number of a shape. *)
Definition cells_ok (b : Grid) : Prop :=
  Forall (Forall (fun v => 0 <= v <= 7)) b.

Definition board_ok (b : Grid) : Prop :=
  rect BoardHeight BoardWidth b /\ count_complete b = 0 /\ cells_ok b.

(* What every reachable state satisfies (see [piece_invariant_reachable]). *)
Definition invariant (g : Game) : Prop :=
  board_ok (board g)
  /\ shape_ok (currShape g)
  /\ 0 <= currPiece g < 7
  /\ 1 <= nextPiece g <= 7
  /\ Int.in_range (pieceX g)
  /\ 0 <= pieceY g <= BoardHeight
  /\ collides g = Done (gameOver g)
  /\ level g = Int.add (Int.quot (lines g) 10) 1.

(** *** Sample runs *)

Definition key_space : EventKey := mkEventKey KeyRune rune_space.

(* A source that only ever draws the square, and one that counts. *)
Definition only_O : RNG := mkRNG (fun _ => 1) 0.
Definition counting : RNG := mkRNG (fun n => Z.of_nat n) 0.

(* The game as [Run] starts it with the first source. *)
Definition fresh : Game :=
  mkGame (make_grid BoardHeight BoardWidth) 1 [[1; 1]; [1; 1]] 2 4 0 0 0 1
         false false (mkRNG (fun _ => 1) 2).

(* A board whose rows 5 and 7 are complete, at level 3. *)
Definition two_rows : Game :=
  mkGame (replicate 5 zero_row ++ [replicate 10 3] ++ [[0; 0; 0; 4; 4; 0; 0; 0; 0; 0]]
            ++ [replicate 10 5] ++ replicate 11 [6; 6; 0; 0; 0; 0; 0; 0; 0; 7]
            ++ [[6; 6; 0; 0; 0; 1; 1; 1; 1; 7]])
         1 [[1; 1]; [1; 1]] 2 4 0 40 25 3 false false (mkRNG (fun _ => 1) 2).

(* Ten squares dropped on one another fill the columns 4 and 5; the
   eleventh cannot be placed. *)
Definition stuck : Game :=
  mkGame (replicate 20 [0; 0; 0; 0; 2; 2; 0; 0; 0; 0])
         1 [[1; 1]; [1; 1]] 2 4 0 0 0 1 false true
         (mkRNG (fun _ => 1) 12).

(* The T piece in the middle of the empty board. *)
Definition turning : Game :=
  mkGame (make_grid BoardHeight BoardWidth) 2 [[0; 1; 0]; [1; 1; 1]] 2 4 5 0 0 1
         false false (mkRNG (fun _ => 1) 2).

End Tetris.

(** * Package snake *)

Module Snake.

Definition BoardWidth : Z := 20.
Definition BoardHeight : Z := 15.
Definition SpeedNormal : Z := 150.
Definition SpeedFast : Z := 80.

Inductive Direction : Type := Up | Down | Left | Right.

Record Point : Type := mkPoint { px : Z; py : Z }.

Definition Point_eqb (p q : Point) : bool :=
  (px p =? px q) && (py p =? py q).

Definition Direction_eqb (d e : Direction) : bool :=
  match d, e with
  | Up, Up | Down, Down | Left, Left | Right, Right => true
  | _, _ => false
  end.

Record Game : Type := mkGame {
  board : Grid;
  snake : list Point;
  food : Point;
  direction : Direction;
  nextDir : Direction;
  score : Z;
  length : Z;
  paused : bool;
  gameOver : bool;
  rng : RNG
}.

Definition set_board (g : Game) (v : Grid) : Game :=
  mkGame v (snake g) (food g) (direction g) (nextDir g)
         (score g) (length g) (paused g) (gameOver g) (rng g).
Definition set_snake (g : Game) (v : list Point) : Game :=
  mkGame (board g) v (food g) (direction g) (nextDir g)
         (score g) (length g) (paused g) (gameOver g) (rng g).
Definition set_food (g : Game) (v : Point) : Game :=
  mkGame (board g) (snake g) v (direction g) (nextDir g)
         (score g) (length g) (paused g) (gameOver g) (rng g).
Definition set_direction (g : Game) (v : Direction) : Game :=
  mkGame (board g) (snake g) (food g) v (nextDir g)
         (score g) (length g) (paused g) (gameOver g) (rng g).
Definition set_nextDir (g : Game) (v : Direction) : Game :=
  mkGame (board g) (snake g) (food g) (direction g) v
         (score g) (length g) (paused g) (gameOver g) (rng g).
Definition set_score (g : Game) (v : Z) : Game :=
  mkGame (board g) (snake g) (food g) (direction g) (nextDir g)
         v (length g) (paused g) (gameOver g) (rng g).
Definition set_length (g : Game) (v : Z) : Game :=
  mkGame (board g) (snake g) (food g) (direction g) (nextDir g)
         (score g) v (paused g) (gameOver g) (rng g).
Definition set_paused (g : Game) (v : bool) : Game :=
  mkGame (board g) (snake g) (food g) (direction g) (nextDir g)
         (score g) (length g) v (gameOver g) (rng g).
Definition set_gameOver (g : Game) (v : bool) : Game :=
  mkGame (board g) (snake g) (food g) (direction g) (nextDir g)
         (score g) (length g) (paused g) v (rng g).
Definition set_rng (g : Game) (v : RNG) : Game :=
  mkGame (board g) (snake g) (food g) (direction g) (nextDir g)
         (score g) (length g) (paused g) (gameOver g) v.

Definition start_snake : list Point :=
  [ mkPoint (BoardWidth / 2) (BoardHeight / 2);
    mkPoint (BoardWidth / 2) (BoardHeight / 2 + 1);
    mkPoint (BoardWidth / 2) (BoardHeight / 2 + 2) ].

Definition NewGame (r : RNG) : Game :=
  mkGame (make_grid BoardHeight BoardWidth) start_snake (mkPoint 0 0)
         Up Up 0 3 false false r.

(** *** spawnFood *)

(* [for x := 0; x < BoardWidth; x++ { if g.board[y][x] == 0 { append } }] *)
Fixpoint scan_row (b : Grid) (y : Z) (n : nat) (x : Z) (emptyPoints : list Point)
  : outcome (list Point) :=
  match n with
  | O => Done emptyPoints
  | S n' =>
      v <- grid_get b y x ;;
      scan_row b y n' (x + 1)
               (if v =? 0 then emptyPoints ++ [mkPoint x y] else emptyPoints)
  end.

(* [for y := 0; y < BoardHeight; y++ { ... }] *)
Fixpoint scan_rows (b : Grid) (n : nat) (y : Z) (emptyPoints : list Point)
  : outcome (list Point) :=
  match n with
  | O => Done emptyPoints
  | S n' =>
      emptyPoints' <- scan_row b y (Z.to_nat BoardWidth) 0 emptyPoints ;;
      scan_rows b n' (y + 1) emptyPoints'
  end.

Definition spawnFood (g : Game) : outcome Game :=
  emptyPoints <- scan_rows (board g) (Z.to_nat BoardHeight) 0 [] ;;
  if Z.of_nat (List.length emptyPoints) >? 0 then
    d <- Intn (rng g) (Z.of_nat (List.length emptyPoints)) ;;
    let '(i, r) := d in
    p <- index emptyPoints i ;;
    Done (set_food (set_rng g r) p)
  else Done g.

(** *** collides *)

(* [for i := 0; i < len(g.snake)-1; i++ { if g.snake[i] == head { return true } }] *)
Fixpoint hits_body (head : Point) (s : list Point) : bool :=
  match s with
  | [] => false
  | p :: rest =>
      match rest with
      | [] => false
      | _ :: _ => if Point_eqb p head then true else hits_body head rest
      end
  end.

Definition collides (g : Game) (head : Point) : bool :=
  if (px head <? 0) || (px head >=? BoardWidth)
     || (py head <? 0) || (py head >=? BoardHeight)
  then true
  else hits_body head (snake g).

(** *** move *)

Definition advance (d : Direction) (head : Point) : Point :=
  match d with
  | Up => mkPoint (px head) (Int.sub (py head) 1)
  | Down => mkPoint (px head) (Int.add (py head) 1)
  | Left => mkPoint (Int.sub (px head) 1) (py head)
  | Right => mkPoint (Int.add (px head) 1) (py head)
  end.

Definition move (g : Game) : outcome (Game * bool) :=
  let g1 := set_direction g (nextDir g) in
  head0 <- index (snake g1) 0 ;;
  let head := advance (direction g1) head0 in
  if collides g1 head then Done (set_gameOver g1 true, false)
  else
    let ateFood := Point_eqb head (food g1) in
    let g2 := set_snake g1 (head :: snake g1) in
    if ateFood then
      let g3 := set_score g2 (Int.add (score g2) 10) in
      let g4 := set_length g3 (Int.add (length g3) 1) in
      g5 <- spawnFood g4 ;;
      Done (g5, true)
    else if Z.of_nat (List.length (snake g2)) >? length g2 then
      Done (set_snake g2 (take (List.length (snake g2) - 1)%nat (snake g2)), true)
    else Done (g2, true).

(** *** getSpeed and reset *)

Definition getSpeed (g : Game) : Z :=
  let speed := Int.sub SpeedNormal (Int.quot (score g) 5) in
  if speed <? SpeedFast then SpeedFast else speed.

Definition reset (g : Game) : outcome Game :=
  let g1 := set_board g (zero_grid (board g)) in
  let g2 := set_snake g1 start_snake in
  let g3 := set_direction g2 Up in
  let g4 := set_nextDir g3 Up in
  let g5 := set_score g4 0 in
  let g6 := set_length g5 3 in
  let g7 := set_paused g6 false in
  let g8 := set_gameOver g7 false in
  spawnFood g8.

(** *** The main loop of [Run] (snake.go) *)

Definition is_rune (ev : EventKey) (a b : Z) : bool :=
  (evRune ev =? a) || (evRune ev =? b).

(* [if game.direction != opposite { game.nextDir = d }] *)
Definition turn (g : Game) (d opposite : Direction) : Game :=
  if negb (Direction_eqb (direction g) opposite) then set_nextDir g d else g.

(* The [*tcell.EventKey] case of the event switch.  Rendering only reads the
   state and is left out. *)
Definition handleKey (ev : EventKey) (g : Game) : outcome (Control Game) :=
  match evKey ev with
  | KeyEscape => Done Return
  | _ =>
    if gameOver g then
      if is_rune ev rune_r rune_R
      then g' <- reset g ;; Done (Continue g')
      else Done (Continue g)
    else if is_rune ev rune_p rune_P
    then Done (Continue (set_paused g (negb (paused g))))
    else if paused g then Done (Continue g)
    else
      match evKey ev with
      | KeyUp => Done (Continue (turn g Up Down))
      | KeyDown => Done (Continue (turn g Down Up))
      | KeyLeft => Done (Continue (turn g Left Right))
      | KeyRight => Done (Continue (turn g Right Left))
      | KeyRune =>
          if is_rune ev rune_r rune_R
          then g' <- reset g ;; Done (Continue g')
          else Done (Continue g)
      | _ => Done (Continue g)
      end
  end.

(* The automatic step, once the interval [getSpeed] has elapsed. *)
Definition tick (g : Game) : outcome Game :=
  if negb (gameOver g) && negb (paused g)
  then m <- move g ;; Done (fst m)
  else Done g.

(* [game := NewGame(screen); game.spawnFood()] *)
Definition start (r : RNG) : outcome Game := spawnFood (NewGame r).

(** *** Vocabulary of the statements *)

Definition in_bounds (p : Point) : Prop :=
  0 <= px p < BoardWidth /\ 0 <= py p < BoardHeight.

(* The cells of the board, row after row, and the cell of a given rank. *)
Definition cell_of (i : Z) : Point := mkPoint (i mod BoardWidth) (i / BoardWidth).

Definition all_cells : list Point :=
  cell_of <$> seqZ 0 (BoardWidth * BoardHeight).

(* The random source after one draw. *)
Definition drawn (r : RNG) : RNG := mkRNG (tape r) (S (cursor r)).

(* The states that [Run] goes through. *)
Inductive reachable : Game -> Prop :=
| reach_start (r : RNG) (g : Game) :
    start r = Done g -> reachable g
| reach_key (ev : EventKey) (g g' : Game) :
    reachable g -> handleKey ev g = Done (Continue g') -> reachable g'
| reach_tick (g g' : Game) :
    reachable g -> tick g = Done g' -> reachable g'.

(* What every reachable state satisfies (see [invariant_reachable]). *)
Definition invariant (g : Game) : Prop :=
  board g = make_grid BoardHeight BoardWidth /\ Forall in_bounds (snake g).

Definition opposite (d : Direction) : Direction :=
  match d with
  | Up => Down
  | Down => Up
  | Left => Right
  | Right => Left
  end.

(* The key event of an arrow key: its rune is 0. *)
Definition arrow (d : Direction) : EventKey :=
  mkEventKey (match d with
              | Up => KeyUp
              | Down => KeyDown
              | Left => KeyLeft
              | Right => KeyRight
              end) 0.

(** *** Sample runs *)

(* A source whose draws all fall on the cell of rank 150, the cell (10, 7). *)
Definition head_draw : RNG := mkRNG (fun _ => 150) 0.

(* The game as [Run] starts it with that source. *)
Definition bitten : Game :=
  mkGame (make_grid BoardHeight BoardWidth) start_snake (mkPoint 10 7)
         Up Up 0 3 false false (mkRNG (fun _ => 150) 1).

(* The same game after the key [p]. *)
Definition key_p : EventKey := mkEventKey KeyRune rune_p.
Definition waiting : Game := set_paused bitten true.

(* The same game with a score of 1000. *)
Definition winning : Game := set_score bitten 1000.

(* What the counters, the directions and the food of every reachable state
   satisfy (see [steady_reachable]). *)
Definition steady (g : Game) : Prop :=
  nextDir g <> opposite (direction g)
  /\ (3 <= List.length (snake g))%nat
  /\ length g = Int.wrap (Z.of_nat (List.length (snake g)))
  /\ score g = Int.wrap (10 * (Z.of_nat (List.length (snake g)) - 3))
  /\ in_bounds (food g).

End Snake.

(** * Package main: the menu *)

Module Main.
Import String.

Inductive GameType : Type := GameTetris | GameSnake.

(* The events that [PollEvent] hands to the menu. *)
Inductive Event : Type :=
| EvKey (ev : EventKey)
| EvResize
| EvOther.

Record Menu : Type := mkMenu {
  selected : Z;
  options : list string
}.

Definition set_selected (m : Menu) (v : Z) : Menu := mkMenu v (options m).

(* What the body of the loop of [Run] does with the loop: it goes on, it
   returns a game, or the process exits. *)
Inductive Choice : Type :=
| Stay (m : Menu)
| Chosen (t : GameType)
| ExitProcess.

Definition NewMenu : Menu :=
  mkMenu 0 ["► 俄罗斯方块"%string; "○ 贪吃蛇"%string; "  退出游戏"%string].

(* [case *tcell.EventKey:] of [Run] *)
Definition menu_key (m : Menu) (ev : EventKey) : Choice :=
  if match evKey ev with KeyCtrlC => true | _ => false end
     || (evRune ev =? rune_q) || (evRune ev =? rune_Q)
  then ExitProcess
  else match evKey ev with
       | KeyUp =>
           if selected m >? 0
           then Stay (set_selected m (Int.sub (selected m) 1))
           else Stay m
       | KeyDown =>
           if selected m <? Int.sub (Z.of_nat (List.length (options m))) 1
           then Stay (set_selected m (Int.add (selected m) 1))
           else Stay m
       | KeyEnter =>
           if selected m =? 0 then Chosen GameTetris
           else if selected m =? 1 then Chosen GameSnake
           else if selected m =? 2 then ExitProcess
           else Stay m
       | _ => Stay m
       end.

Definition menu_event (m : Menu) (e : Event) : Choice :=
  match e with
  | EvKey ev => menu_key m ev
  | EvResize => Stay m
  | EvOther => Stay m
  end.

(* The loop of [Run] fed with a list of events. *)
Fixpoint Run (evs : list Event) (m : Menu) : Choice :=
  match evs with
  | [] => Stay m
  | e :: rest =>
      match menu_event m e with
      | Stay m' => Run rest m'
      | c => c
      end
  end.

(* Three times the arrow down, then a resize: the last entry is selected. *)
Definition to_the_last : list Event :=
  [EvKey (mkEventKey KeyDown 0); EvKey (mkEventKey KeyDown 0);
   EvKey (mkEventKey KeyDown 0); EvResize].

End Main.

(** * Facts on machine integers and slices *)

Lemma wrap_in_range (z : Z) : Int.in_range (Int.wrap z).
Proof.
  unfold Int.in_range, Int.wrap.
  pose proof (Z.mod_pos_bound (z + 2 ^ 63) (2 ^ 64) ltac:(lia)). lia.
Qed.

Lemma wrap_small (z : Z) : Int.in_range z -> Int.wrap z = z.
Proof.
  unfold Int.in_range, Int.wrap. intros Hz.
  rewrite Z.mod_small by lia. lia.
Qed.

Lemma wrap_add_l (a b : Z) : Int.wrap (Int.wrap a + b) = Int.wrap (a + b).
Proof.
  unfold Int.wrap. f_equal.
  replace ((a + 2 ^ 63) mod 2 ^ 64 - 2 ^ 63 + b + 2 ^ 63)
    with ((a + 2 ^ 63) mod 2 ^ 64 + b) by lia.
  rewrite Zplus_mod_idemp_l. f_equal. lia.
Qed.

Lemma wrap_shift (z q : Z) : Int.wrap (z + 2 ^ 64 * q) = Int.wrap z.
Proof.
  unfold Int.wrap. f_equal.
  replace (z + 2 ^ 64 * q + 2 ^ 63) with (z + 2 ^ 63 + q * 2 ^ 64) by lia.
  apply Z_mod_plus_full.
Qed.

Lemma wrap_sub_l (a b : Z) : Int.wrap (Int.wrap a - b) = Int.wrap (a - b).
Proof.
  replace (Int.wrap a - b) with (Int.wrap a + - b) by lia.
  rewrite wrap_add_l. f_equal; lia.
Qed.

Lemma add_sub_cancel (a b : Z) : Int.in_range a -> Int.sub (Int.add a b) b = a.
Proof.
  intros Ha. unfold Int.sub, Int.add. rewrite wrap_sub_l.
  replace (a + b - b) with a by lia. by apply wrap_small.
Qed.

Lemma add_zero (a : Z) : Int.in_range a -> Int.add a 0 = a.
Proof. intros Ha. unfold Int.add. rewrite Z.add_0_r. by apply wrap_small. Qed.

Lemma index_of_nat {A : Type} (l : list A) (n : nat) :
  index l (Z.of_nat n) = match l !! n with Some a => Done a | None => Panic end.
Proof.
  unfold index. destruct (Z.ltb_spec (Z.of_nat n) 0); [lia|].
  by rewrite Nat2Z.id.
Qed.

Lemma index_lookup {A : Type} (l : list A) (i : Z) (a : A) :
  0 <= i -> l !! Z.to_nat i = Some a -> index l i = Done a.
Proof.
  intros Hi Hl. unfold index. destruct (Z.ltb_spec i 0); [lia|]. by rewrite Hl.
Qed.

Lemma grid_get_rect (h w : Z) (b : Grid) (y x : Z) :
  rect h w b -> 0 <= y < h -> 0 <= x < w ->
  exists row v, b !! Z.to_nat y = Some row /\ row !! Z.to_nat x = Some v
                /\ length row = Z.to_nat w /\ grid_get b y x = Done v.
Proof.
  intros [Hlen Hrows] Hy Hx.
  destruct (lookup_lt_is_Some_2 b (Z.to_nat y)) as [row Hrow]; [lia|].
  pose proof (Forall_lookup_1 _ _ _ _ Hrows Hrow) as Hw. simpl in Hw.
  destruct (lookup_lt_is_Some_2 row (Z.to_nat x)) as [v Hv]; [lia|].
  exists row, v. repeat split; try done.
  unfold grid_get. rewrite (index_lookup b y row) by (done || lia). simpl.
  apply index_lookup; [lia | done].
Qed.

Lemma rect_lookup (h w : Z) (b : Grid) (i : nat) (row : list Z) :
  rect h w b -> b !! i = Some row -> length row = Z.to_nat w.
Proof. intros [_ Hrows] Hrow. exact (Forall_lookup_1 _ _ _ _ Hrows Hrow). Qed.

Lemma rect_insert (h w : Z) (b : Grid) (i : nat) (row : list Z) :
  rect h w b -> length row = Z.to_nat w -> rect h w (<[i := row]> b).
Proof.
  intros [Hlen Hrows] Hrow. split; [by rewrite length_insert|].
  by apply Forall_insert.
Qed.

Lemma rect_make (h w : Z) : rect h w (make_grid h w).
Proof.
  unfold make_grid. split; [by rewrite length_replicate|].
  apply Forall_replicate. by rewrite length_replicate.
Qed.

Lemma grid_set_rect (h w : Z) (b : Grid) (y x : nat) (v : Z) :
  rect h w b -> Z.of_nat y < h -> Z.of_nat x < w ->
  exists b', grid_set b (Z.of_nat y) (Z.of_nat x) v = Done b' /\ rect h w b'
    /\ (forall i, i <> y -> b' !! i = b !! i)
    /\ forall i j, cell b' i j = if decide (i = y /\ j = x) then Some v else cell b i j.
Proof.
  intros Hb Hy Hx.
  destruct (lookup_lt_is_Some_2 b y) as [row Hrow]; [destruct Hb; lia|].
  pose proof (rect_lookup _ _ _ _ _ Hb Hrow) as Hw.
  destruct (lookup_lt_is_Some_2 row x) as [v0 Hv0]; [lia|].
  exists (<[y := <[x := v]> row]> b).
  split; [|split; [|split]].
  - unfold grid_set. rewrite !index_of_nat, Hrow. simpl.
    rewrite index_of_nat, Hv0. simpl. by rewrite !Nat2Z.id.
  - apply rect_insert; [done|]. by rewrite length_insert.
  - intros i Hi. by rewrite list_lookup_insert_ne.
  - intros i j. unfold cell. case_decide as Hd.
    + destruct Hd as [-> ->]. rewrite list_lookup_insert_eq by (destruct Hb; lia).
      apply list_lookup_insert_eq. lia.
    + destruct (decide (i = y)) as [->|Hi].
      * rewrite list_lookup_insert_eq by (destruct Hb; lia). rewrite Hrow.
        apply list_lookup_insert_ne. intros ->. by apply Hd.
      * by rewrite list_lookup_insert_ne.
Qed.

Lemma drop_insert_here {A : Type} (l : list A) (i : nat) (x : A) :
  (i < length l)%nat -> skipn i (<[i := x]> l) = x :: skipn (S i) l.
Proof.
  intros Hi. rewrite insert_take_drop by done.
  rewrite drop_app_length'; [done|]. rewrite length_take. lia.
Qed.

Lemma differ_at_one {A : Type} (l l' : list A) (i0 : nat) (d : A) :
  length l' = length l -> (forall i, i <> i0 -> l' !! i = l !! i) ->
  exists x, l' = <[i0 := x]> l.
Proof.
  intros Hlen Hsame. destruct (l' !! i0) as [x|] eqn:E.
  - exists x. apply list_eq. intros i. destruct (decide (i = i0)) as [->|Hi].
    + rewrite list_lookup_insert_eq; [done|].
      apply lookup_lt_Some in E. lia.
    + rewrite list_lookup_insert_ne by done. by apply Hsame.
  - exists d. apply lookup_ge_None in E. rewrite list_insert_ge by lia.
    apply list_eq. intros i. destruct (decide (i = i0)) as [->|Hi].
    + rewrite !(proj2 (lookup_ge_None _ _)) by lia. done.
    + by apply Hsame.
Qed.

Lemma zero_grid_rect (h w : Z) (b : Grid) : rect h w b -> zero_grid b = make_grid h w.
Proof.
  intros [Hl Hr]. unfold zero_grid, make_grid. rewrite <- Hl. clear Hl.
  induction Hr as [|row b Hrow _ IH]; [done|].
  simpl. f_equal; [|done]. rewrite <- Hrow. clear.
  induction row as [|v row IH]; simpl; [done | by f_equal].
Qed.

Lemma wrap_le (z : Z) : 0 <= z -> Int.wrap z <= z.
Proof.
  intros Hz. unfold Int.wrap.
  pose proof (Z.mod_le (z + 2 ^ 63) (2 ^ 64) ltac:(lia) ltac:(lia)). lia.
Qed.

Lemma cell_Some (h w : nat) (b : Grid) (i j : nat) :
  rect (Z.of_nat h) (Z.of_nat w) b -> (i < h)%nat -> (j < w)%nat ->
  exists v, cell b i j = Some v.
Proof.
  intros Hb Hi Hj. unfold cell.
  destruct (lookup_lt_is_Some_2 b i) as [row Hrow]; [destruct Hb; lia|].
  rewrite Hrow. apply lookup_lt_is_Some_2.
  rewrite (rect_lookup _ _ _ _ _ Hb Hrow). lia.
Qed.

Lemma grid_ext (h w : nat) (b b' : Grid) :
  rect (Z.of_nat h) (Z.of_nat w) b -> rect (Z.of_nat h) (Z.of_nat w) b' ->
  (forall i j, (i < h)%nat -> (j < w)%nat -> cell b i j = cell b' i j) ->
  b = b'.
Proof.
  intros Hb Hb' Hcell. apply list_eq. intros i.
  destruct (decide (i < h)%nat) as [Hi|Hi].
  - destruct (lookup_lt_is_Some_2 b i) as [row Hrow]; [destruct Hb; lia|].
    destruct (lookup_lt_is_Some_2 b' i) as [row' Hrow']; [destruct Hb'; lia|].
    rewrite Hrow, Hrow'. f_equal.
    pose proof (rect_lookup _ _ _ _ _ Hb Hrow) as Hw.
    pose proof (rect_lookup _ _ _ _ _ Hb' Hrow') as Hw'.
    apply list_eq. intros j. destruct (decide (j < w)%nat) as [Hj|Hj].
    + specialize (Hcell i j Hi Hj). unfold cell in Hcell. by rewrite Hrow, Hrow' in Hcell.
    + rewrite !(proj2 (lookup_ge_None _ _)) by lia. done.
  - destruct Hb, Hb'. rewrite !(proj2 (lookup_ge_None _ _)) by lia. done.
Qed.

Lemma grid_set_Forall (P : Z -> Prop) (b b' : Grid) (y x v : Z) :
  grid_set b y x v = Done b' -> Forall (Forall P) b -> P v -> Forall (Forall P) b'.
Proof.
  unfold grid_set, index. destruct (y <? 0); [done|].
  destruct (b !! Z.to_nat y) as [row|] eqn:Hrow; [|done]. cbn [bind].
  destruct (x <? 0); [done|]. destruct (row !! Z.to_nat x); [|done]. cbn [bind].
  intros [= <-] Hb Hv. apply Forall_insert; [done|].
  apply Forall_insert; [|done]. exact (Forall_lookup_1 _ _ _ _ Hb Hrow).
Qed.

Lemma Forall_filter_keep {A : Type} (P Q : A -> Prop) `{forall x, Decision (Q x)}
    (l : list A) :
  Forall P l -> Forall P (filter Q l).
Proof.
  rewrite !Forall_forall. intros Hl x Hx. apply list_elem_of_filter in Hx as [_ Hx].
  by apply Hl.
Qed.

(** * Package tetris: properties *)

Module TetrisProofs.

Import Tetris.

Lemma collides_row_spec (g : Game) (y : nat) (row : list Z) (x0 : nat) :
  rect BoardHeight BoardWidth (board g) ->
  exists c, collides_row g (Z.of_nat y) (Z.of_nat x0) row = Done c
    /\ (c = true <-> exists i, row !! i = Some 1 /\ cell_hits g y (x0 + i)).
Proof.
  intros Hb. revert x0. induction row as [|cell rest IH]; intros x0.
  - exists false. split; [done|]. split; [done|]. intros (i & Hi & _). done.
  - simpl. replace (Z.of_nat x0 + 1) with (Z.of_nat (S x0)) by lia.
    destruct (IH (S x0)) as (c & Hc & Hiff).
    assert (Hshift : (exists i, rest !! i = Some 1 /\ cell_hits g y (S x0 + i))
                     -> exists i, (cell :: rest) !! i = Some 1 /\ cell_hits g y (x0 + i)).
    { intros (i & Hi & Hh). exists (S i). split; [done|].
      by replace (x0 + S i)%nat with (S x0 + i)%nat by lia. }
    assert (Hunshift : cell <> 1 \/ ~ cell_hits g y x0 ->
                       (exists i, (cell :: rest) !! i = Some 1 /\ cell_hits g y (x0 + i))
                       -> exists i, rest !! i = Some 1 /\ cell_hits g y (S x0 + i)).
    { intros Hno (i & Hi & Hh). destruct i as [|i].
      - simpl in Hi. injection Hi as ->. rewrite Nat.add_0_r in Hh. by destruct Hno.
      - exists i. split; [done|]. by replace (S x0 + i)%nat with (x0 + S i)%nat by lia. }
    destruct (Z.eqb_spec cell 1) as [->|Hcell].
    + fold (boardX_of g x0). fold (boardY_of g y).
      assert (Hhere : cell_hits g y x0 ->
                exists i, (1 :: rest) !! i = Some 1 /\ cell_hits g y (x0 + i)).
      { intros Hh. exists 0%nat. split; [done|]. by rewrite Nat.add_0_r. }
      destruct (Z.ltb_spec (boardX_of g x0) 0) as [HX0|HX0]; simpl.
      { exists true. split; [done|]. split; [|done]. intros _. apply Hhere. left. done. }
      destruct (Z.geb_spec (boardX_of g x0) BoardWidth) as [HXW|HXW]; simpl.
      { exists true. split; [done|]. split; [|done]. intros _. apply Hhere. right; left. lia. }
      destruct (Z.geb_spec (boardY_of g y) BoardHeight) as [HYH|HYH]; simpl.
      { exists true. split; [done|]. split; [|done]. intros _. apply Hhere. right; right; left. lia. }
      destruct (Z.geb_spec (boardY_of g y) 0) as [HY0|HY0]; simpl.
      * destruct (grid_get_rect _ _ _ (boardY_of g y) (boardX_of g x0) Hb)
          as (brow & v & Hbrow & Hv & _ & Hget); [lia | lia |].
        rewrite Hget. simpl.
        destruct (Z.eqb_spec v 0) as [->|Hv0]; simpl.
        -- exists c. split; [done|]. rewrite Hiff. split; [apply Hshift|].
           apply Hunshift. right. intros [?|[?|[?|[_ (_ & _ & r & v & Hr & Hv' & Hne)]]]]; try lia.
           congruence.
        -- exists true. split; [done|]. split; [|done]. intros _. apply Hhere.
           right; right; right. split; [lia|]. split; [lia|]. split; [lia|]. eauto.
      * exists c. split; [done|]. rewrite Hiff. split; [apply Hshift|].
        apply Hunshift. right. intros [?|[?|[?|[? _]]]]; lia.
    + exists c. split; [done|]. rewrite Hiff. split; [apply Hshift|].
      apply Hunshift. by left.
Qed.

Lemma collides_rows_spec (g : Game) (shape : Grid) (y0 : nat) :
  rect BoardHeight BoardWidth (board g) ->
  exists c, collides_rows g (Z.of_nat y0) shape = Done c
    /\ (c = true <-> exists j i, filled shape j i /\ cell_hits g (y0 + j) i).
Proof.
  intros Hb. revert y0. induction shape as [|row rest IH]; intros y0.
  - exists false. split; [done|]. split; [done|]. intros (j & i & (r & Hr & _) & _). done.
  - simpl. destruct (collides_row_spec g y0 row 0 Hb) as (c1 & Hc1 & Hiff1).
    change (Z.of_nat 0) with 0 in Hc1. rewrite Hc1. simpl.
    replace (Z.of_nat y0 + 1) with (Z.of_nat (S y0)) by lia.
    destruct (IH (S y0)) as (c & Hc & Hiff).
    destruct c1.
    + exists true. split; [done|]. split; [|done]. intros _.
      destruct Hiff1 as [(i & Hi & Hh) _]; [done|].
      exists 0%nat, i. rewrite Nat.add_0_r. split; [|done]. by exists row.
    + exists c. split; [done|]. rewrite Hiff. split.
      * intros (j & i & (r & Hr & Hi) & Hh). exists (S j), i.
        replace (y0 + S j)%nat with (S y0 + j)%nat by lia. split; [|done]. by exists r.
      * intros (j & i & (r & Hr & Hi) & Hh). destruct j as [|j].
        -- simpl in Hr. injection Hr as ->. rewrite Nat.add_0_r in Hh.
           assert (false = true); [|done]. apply Hiff1. eauto.
        -- exists j, i. replace (S y0 + j)%nat with (y0 + S j)%nat by lia.
           split; [|done]. by exists r.
Qed.

Lemma collides_spec (g : Game) :
  rect BoardHeight BoardWidth (board g) ->
  exists c, collides g = Done c
    /\ (c = true <-> exists y x, filled (currShape g) y x /\ cell_hits g y x).
Proof. intros Hb. exact (collides_rows_spec g (currShape g) 0 Hb). Qed.

(** C7.  [collides] answers, and it answers [true] exactly when some filled
    cell of the shape lies left or right of the board (whatever its row),
    or below the last row, or on a non-zero cell of the board at a row
    [boardY >= 0].  A piece whose filled cells are all above the first row
    and between the walls does not collide. *)
Theorem collides_boundary_asymmetry (g : Game) :
  rect BoardHeight BoardWidth (board g) ->
  exists c, collides g = Done c
    /\ (c = true <-> exists y x, filled (currShape g) y x /\ cell_hits g y x)
    /\ ((forall y x, filled (currShape g) y x ->
           boardY_of g y < 0 /\ 0 <= boardX_of g x < BoardWidth) -> c = false).
Proof.
  intros Hb. destruct (collides_spec g Hb) as (c & Hc & Hiff).
  exists c. split; [done|]. split; [done|].
  intros Hup. destruct c; [|done]. destruct Hiff as [(y & x & Hf & Hh) _]; [done|].
  destruct (Hup y x Hf) as [HY HX].
  assert (BoardHeight = 20) by done.
  destruct Hh as [?|[?|[?|[? _]]]]; lia.
Qed.

Lemma rotate_row_spec (rows cols y : nat) (row : list Z) (x0 : nat) (rot : Grid) :
  rect (Z.of_nat cols) (Z.of_nat rows) rot ->
  (y < rows)%nat -> (x0 + length row <= cols)%nat ->
  exists rot', rotate_row rot (Z.of_nat rows) (Z.of_nat y) (Z.of_nat x0) row = Done rot'
    /\ rect (Z.of_nat cols) (Z.of_nat rows) rot'
    /\ forall i j, cell rot' i j =
         if decide (j = (rows - 1 - y)%nat /\ (x0 <= i < x0 + length row)%nat)
         then row !! (i - x0)%nat else cell rot i j.
Proof.
  intros Hrot Hy. revert x0 rot Hrot. induction row as [|c rest IH]; intros x0 rot Hrot Hx.
  - exists rot. split; [done|]. split; [done|]. intros i j.
    case_decide as Hd; [simpl in Hd; lia | done].
  - simpl in Hx. simpl rotate_row.
    replace (Z.of_nat rows - 1 - Z.of_nat y) with (Z.of_nat (rows - 1 - y)) by lia.
    destruct (grid_set_rect _ _ rot x0 (rows - 1 - y) c Hrot) as (rot1 & Hset & Hrot1 & _ & Hcell1);
      [lia | lia |].
    rewrite Hset. simpl.
    replace (Z.of_nat x0 + 1) with (Z.of_nat (S x0)) by lia.
    destruct (IH (S x0) rot1 Hrot1) as (rot' & Hrun & Hrot' & Hcell'); [lia|].
    exists rot'. split; [done|]. split; [done|]. intros i j.
    rewrite Hcell', Hcell1. simpl length.
    repeat case_decide; try lia.
    + replace (i - x0)%nat with (S (i - S x0)) by lia. done.
    + destruct_and!. subst. by rewrite Nat.sub_diag.
    + done.
Qed.

Lemma rotate_rows_spec (rows cols : nat) (shape : Grid) (y0 : nat) (rot : Grid) :
  rect (Z.of_nat cols) (Z.of_nat rows) rot ->
  Forall (fun row => length row = cols) shape ->
  (y0 + length shape <= rows)%nat ->
  exists rot', rotate_rows rot (Z.of_nat rows) (Z.of_nat y0) shape = Done rot'
    /\ rect (Z.of_nat cols) (Z.of_nat rows) rot'
    /\ (forall i j, (rows <= y0 + j)%nat -> cell rot' i j = cell rot i j)
    /\ forall y x v, cell shape y x = Some v ->
         cell rot' x (rows - 1 - (y0 + y)) = Some v.
Proof.
  intros Hrot Hshape. revert y0 rot Hrot.
  induction Hshape as [|row rest Hrow Hrest IH]; intros y0 rot Hrot Hy.
  - exists rot. split; [done|]. split; [done|]. split; [done|].
    intros y x v. unfold cell. by rewrite lookup_nil.
  - simpl in Hy. simpl rotate_rows.
    destruct (rotate_row_spec rows cols y0 row 0 rot Hrot) as (rot1 & Hrun1 & Hrot1 & Hcell1);
      [lia | lia |].
    change (Z.of_nat 0) with 0 in Hrun1. rewrite Hrun1. simpl.
    replace (Z.of_nat y0 + 1) with (Z.of_nat (S y0)) by lia.
    destruct (IH (S y0) rot1 Hrot1) as (rot' & Hrun & Hrot' & Hkeep & Hcell'); [lia|].
    exists rot'. split; [done|]. split; [done|]. split.
    + intros i j Hj. rewrite Hkeep by lia. rewrite Hcell1.
      case_decide; [lia | done].
    + intros y x v Hv. destruct y as [|y].
      * unfold cell in Hv. simpl in Hv. rewrite Nat.add_0_r.
        rewrite Hkeep by lia. rewrite Hcell1.
        pose proof (lookup_lt_Some _ _ _ Hv).
        rewrite decide_True by lia. by rewrite Nat.sub_0_r.
      * replace (y0 + S y)%nat with (S y0 + y)%nat by lia. apply Hcell'. done.
Qed.

Lemma set_currShape_back (g : Game) (s : Grid) :
  set_currShape (set_currShape g s) (currShape g) = g.
Proof. by destruct g. Qed.

(** C6.  Rotation either takes effect or is rolled back as a whole: for a
    state whose shape is a non-empty rectangle, [rotate] builds the quarter
    turn [rotated[x][rows-1-y] = shape[y][x]]; when that shape collides at
    the current position the state after the call is the state before it,
    shape included, and otherwise the only change is that the shape is the
    quarter turn. *)
Theorem rotate_rollback (g : Game) (cols : nat) :
  rect BoardHeight BoardWidth (board g) ->
  currShape g <> [] ->
  Forall (fun row => length row = cols) (currShape g) ->
  exists rotated c,
    clockwise_of (currShape g) rotated
    /\ collides (set_currShape g rotated) = Done c
    /\ rotate g = Done (if c then g else set_currShape g rotated).
Proof.
  intros Hb Hne Hshape.
  destruct (currShape g) as [|first rest] eqn:Eshape; [done|].
  pose proof (Forall_inv Hshape) as Hfirst. simpl in Hfirst.
  set (rows := length (first :: rest)).
  destruct (rotate_rows_spec rows cols (first :: rest) 0
              (make_grid (Z.of_nat cols) (Z.of_nat rows)))
    as (rotated & Hrun & Hrot & _ & Hcell); [apply rect_make | done | done |].
  destruct (collides_rows_spec (set_currShape g rotated) rotated 0 Hb) as (c & Hc & _).
  exists rotated, c. split; [|split; [done|]].
  - split; [by exists cols|]. intros y x v Hv. by apply Hcell.
  - assert (Hidx : index (first :: rest) 0 = Done first) by done.
    unfold rotate. rewrite Eshape, Hidx. cbn [bind].
    fold rows. rewrite Hfirst.
    change (Z.of_nat 0) with 0 in Hrun. rewrite Hrun. cbn [bind].
    unfold collides. change (currShape (set_currShape g rotated)) with rotated.
    change (Z.of_nat 0) with 0 in Hc. rewrite Hc. cbn [bind]. destruct c; [|done].
    f_equal. rewrite <- Eshape. apply set_currShape_back.
Qed.

Lemma row_complete_spec (b : Grid) (y : nat) (row : list Z) (n x0 : nat) :
  b !! y = Some row -> (x0 + n = length row)%nat ->
  row_complete b (Z.of_nat y) n (Z.of_nat x0) = Done (complete (skipn x0 row)).
Proof.
  intros Hrow. revert x0. induction n as [|n IH]; intros x0 Hn.
  - simpl. by rewrite drop_ge by lia.
  - destruct (lookup_lt_is_Some_2 row x0) as [v Hv]; [lia|].
    rewrite (drop_S _ _ _ Hv). simpl.
    unfold grid_get. rewrite index_of_nat, Hrow. cbn [bind].
    rewrite index_of_nat, Hv. cbn [bind].
    replace (Z.of_nat x0 + 1) with (Z.of_nat (S x0)) by lia.
    destruct (Z.eqb_spec v 0); simpl; [done|]. apply IH. lia.
Qed.

Lemma copy_row_spec (b : Grid) (r : nat) (src d : list Z) (n x0 : nat) :
  b !! r = Some src -> b !! S r = Some d -> length src = length d ->
  (x0 + n = length d)%nat ->
  copy_row b (Z.of_nat (S r)) n (Z.of_nat x0)
  = Done (<[S r := take x0 d ++ skipn x0 src]> b).
Proof.
  intros Hsrc. revert b d x0 Hsrc. induction n as [|n IH]; intros b d x0 Hsrc Hd Hlen Hn.
  - simpl. rewrite take_ge, drop_ge by lia. rewrite app_nil_r.
    by rewrite list_insert_id.
  - destruct (lookup_lt_is_Some_2 src x0) as [v Hv]; [lia|].
    destruct (lookup_lt_is_Some_2 d x0) as [v' Hv']; [lia|].
    pose proof (lookup_lt_Some _ _ _ Hd) as HSr.
    cbn [copy_row].
    replace (Z.of_nat (S r) - 1) with (Z.of_nat r) by lia.
    unfold grid_get, grid_set. rewrite !index_of_nat, Hsrc, Hd. cbn [bind].
    rewrite !index_of_nat, Hv, Hv'. cbn [bind]. rewrite !Nat2Z.id.
    replace (Z.of_nat x0 + 1) with (Z.of_nat (S x0)) by lia.
    rewrite (IH _ (<[x0 := v]> d)).
    + rewrite list_insert_insert_eq. do 2 f_equal.
      rewrite (drop_S _ _ _ Hv).
      rewrite (take_S_r _ _ v) by (apply list_lookup_insert_eq; lia).
      rewrite take_insert_ge by lia. by rewrite <- app_assoc.
    + by rewrite list_lookup_insert_ne by lia.
    + by rewrite list_lookup_insert_eq by lia.
    + by rewrite length_insert.
    + rewrite length_insert. lia.
Qed.

Lemma shift_down_spec (h w : Z) (b : Grid) (n : nat) :
  w = BoardWidth -> rect h w b -> (n < length b)%nat ->
  shift_down b n = Done (take 1 b ++ take n b ++ skipn (S n) b).
Proof.
  intros -> Hb. revert b Hb. induction n as [|n IH]; intros b Hb Hn.
  - simpl. by rewrite take_drop.
  - destruct (lookup_lt_is_Some_2 b n) as [src Hsrc]; [lia|].
    destruct (lookup_lt_is_Some_2 b (S n)) as [d Hd]; [lia|].
    pose proof (rect_lookup _ _ _ _ _ Hb Hsrc) as Hws.
    pose proof (rect_lookup _ _ _ _ _ Hb Hd) as Hwd.
    cbn [shift_down].
    change 0 with (Z.of_nat 0).
    rewrite (copy_row_spec b n src d) by (done || lia). cbn [bind].
    rewrite take_0, drop_0. simpl app.
    rewrite IH.
    + f_equal. rewrite !take_insert_ge by lia.
      rewrite drop_insert_here by lia.
      rewrite (take_S_r _ _ _ Hsrc). by rewrite <- app_assoc.
    + by apply rect_insert.
    + rewrite length_insert. lia.
Qed.

Lemma clear_top_spec (b : Grid) (d : list Z) (n x0 : nat) :
  b !! 0%nat = Some d -> (x0 + n = length d)%nat ->
  clear_top b n (Z.of_nat x0) = Done (<[0%nat := take x0 d ++ replicate n 0]> b).
Proof.
  revert b d x0. induction n as [|n IH]; intros b d x0 Hd Hn.
  - simpl. rewrite take_ge by lia. rewrite app_nil_r. by rewrite list_insert_id.
  - destruct (lookup_lt_is_Some_2 d x0) as [v Hv]; [lia|].
    pose proof (lookup_lt_Some _ _ _ Hd) as H0.
    cbn [clear_top]. unfold grid_set. change 0 with (Z.of_nat 0) at 1.
    rewrite !index_of_nat, Hd. cbn [bind]. rewrite index_of_nat, Hv. cbn [bind].
    rewrite Nat2Z.id. change (Z.to_nat 0) with 0%nat.
    replace (Z.of_nat x0 + 1) with (Z.of_nat (S x0)) by lia.
    rewrite (IH _ (<[x0 := 0]> d)).
    + rewrite list_insert_insert_eq. do 2 f_equal.
      rewrite (take_S_r _ _ 0) by (apply list_lookup_insert_eq; lia).
      rewrite take_insert_ge by lia. rewrite <- app_assoc. done.
    + by rewrite list_lookup_insert_eq by lia.
    + rewrite length_insert. lia.
Qed.

(* Removing the row of index [y]: the rows above move down, an empty row
   comes in on top. *)
Lemma remove_row_spec (b : Grid) (y : nat) :
  rect BoardHeight BoardWidth b -> (y < length b)%nat ->
  (b1 <- shift_down b y ;; clear_top b1 (Z.to_nat BoardWidth) 0)
  = Done (zero_row :: take y b ++ skipn (S y) b).
Proof.
  intros Hb Hy. rewrite (shift_down_spec BoardHeight BoardWidth) by done. cbn [bind].
  destruct b as [|r0 b']; [simpl in Hy; lia|].
  pose proof (rect_lookup _ _ (r0 :: b') 0 r0 Hb eq_refl) as Hw.
  rewrite (clear_top_spec _ r0 (Z.to_nat BoardWidth) 0) by done. done.
Qed.

Lemma zero_row_incomplete : complete zero_row = false.
Proof. reflexivity. Qed.

Lemma complete_rows_snoc (l : Grid) (row : list Z) :
  complete_rows (l ++ [row]) = complete_rows l ++ (if complete row then [row] else []).
Proof.
  unfold complete_rows. rewrite filter_app. f_equal.
  destruct (complete row) eqn:E.
  - by rewrite filter_cons_True.
  - rewrite filter_cons_False; [done|]. by rewrite E.
Qed.

Lemma kept_rows_snoc (l : Grid) (row : list Z) :
  kept_rows (l ++ [row]) = kept_rows l ++ (if complete row then [] else [row]).
Proof.
  unfold kept_rows. rewrite filter_app. f_equal.
  destruct (complete row) eqn:E.
  - rewrite filter_cons_False; [done|]. by rewrite E.
  - by rewrite filter_cons_True.
Qed.

Lemma clear_scan_spec (fuel : nat) (b : Grid) (m : nat) (y cleared : Z) :
  rect BoardHeight BoardWidth b -> (m <= length b)%nat -> y = Z.of_nat m - 1 ->
  (m + length (complete_rows (take m b)) < fuel)%nat ->
  clear_scan fuel b y cleared
  = Done (replicate (length (complete_rows (take m b))) zero_row
            ++ kept_rows (take m b) ++ skipn m b,
          cleared + Z.of_nat (length (complete_rows (take m b)))).
Proof.
  revert b m y cleared.
  induction fuel as [|fuel IH]; intros b m y cleared Hb Hm -> Hfuel; [lia|].
  cbn [clear_scan]. destruct m as [|m].
  - simpl. rewrite Z.add_0_r. done.
  - destruct (Z.geb_spec (Z.of_nat (S m) - 1) 0) as [_|?]; [|lia].
    replace (Z.of_nat (S m) - 1) with (Z.of_nat m) by lia.
    destruct (lookup_lt_is_Some_2 b m) as [row Hrow]; [lia|].
    pose proof (rect_lookup _ _ _ _ _ Hb Hrow) as Hw.
    change 0 with (Z.of_nat 0) at 1.
    rewrite (row_complete_spec b m row) by (done || lia). cbn [bind].
    rewrite skipn_O.
    rewrite (take_S_r _ _ _ Hrow) in Hfuel |- *.
    rewrite complete_rows_snoc in Hfuel |- *. rewrite kept_rows_snoc.
    destruct (complete row) eqn:Ec.
    + rewrite Nat2Z.id.
      pose proof (remove_row_spec b m Hb ltac:(lia)) as Hrem.
      destruct (shift_down b m) as [b1| |]; try done. cbn [bind] in Hrem |- *.
      rewrite Hrem. clear Hrem.
      set (b2 := zero_row :: take m b ++ skipn (S m) b).
      assert (Hlen2 : length b2 = length b).
      { unfold b2. simpl. rewrite length_app, length_take, length_skipn. lia. }
      assert (Hb2 : rect BoardHeight BoardWidth b2).
      { destruct Hb as [Hl Hr]. split; [lia|]. unfold b2.
        apply Forall_cons. split; [unfold zero_row; by rewrite length_replicate|].
        apply Forall_app. split; [by apply Forall_take | by apply Forall_drop]. }
      assert (Htake2 : take (S m) b2 = zero_row :: take m b).
      { unfold b2. simpl. f_equal. rewrite take_app_length'; [done|].
        rewrite length_take. lia. }
      assert (Hdrop2 : skipn (S m) b2 = skipn (S m) b).
      { unfold b2. simpl. rewrite drop_app_length'; [done|].
        rewrite length_take. lia. }
      rewrite length_app in Hfuel. simpl in Hfuel.
      cbn [bind]. rewrite (IH b2 (S m)); [|done|lia|lia|].
      * rewrite Htake2, Hdrop2.
        unfold complete_rows at 1 2, kept_rows at 1.
        rewrite !filter_cons_False by (by rewrite zero_row_incomplete).
        rewrite filter_cons_True by apply zero_row_incomplete.
        fold (complete_rows (take m b)). fold (kept_rows (take m b)).
        rewrite !app_nil_r, length_app. simpl length.
        do 2 f_equal; [|lia].
        replace (length (complete_rows (take m b)) + 1)%nat
          with (S (length (complete_rows (take m b)))) by lia.
        rewrite replicate_S_end, <- !app_assoc. done.
      * rewrite Htake2. unfold complete_rows at 1.
        rewrite filter_cons_False by (by rewrite zero_row_incomplete).
        fold (complete_rows (take m b)). lia.
    + rewrite app_nil_r in Hfuel |- *.
      rewrite (IH b m); [|done|lia|lia|lia].
      rewrite <- !app_assoc. simpl. rewrite (drop_S _ _ _ Hrow). done.
Qed.

Lemma complete_rows_length (b : Grid) : (length (complete_rows b) <= length b)%nat.
Proof. unfold complete_rows. apply length_filter. Qed.

Lemma kept_rows_all (b : Grid) : complete_rows b = [] -> kept_rows b = b.
Proof.
  unfold complete_rows, kept_rows. induction b as [|row b IH]; [done|].
  destruct (complete row) eqn:E.
  - rewrite filter_cons_True by done. done.
  - rewrite filter_cons_False by (by rewrite E). rewrite filter_cons_True by done.
    intros Hb. by rewrite IH.
Qed.

Lemma compacted_none (b : Grid) : count_complete b = 0 -> compacted b = b.
Proof.
  unfold count_complete, compacted. intros Hk.
  destruct (complete_rows b) eqn:E; [|simpl in Hk; lia].
  simpl. apply kept_rows_all. done.
Qed.

Lemma count_complete_bounds (b : Grid) :
  rect BoardHeight BoardWidth b -> 0 <= count_complete b <= BoardHeight.
Proof.
  intros [Hl _]. unfold count_complete. pose proof (complete_rows_length b).
  assert (BoardHeight = 20) by done. lia.
Qed.

Lemma clear_scan_enough (fuel : nat) (b : Grid) :
  rect BoardHeight BoardWidth b ->
  (Z.to_nat BoardHeight + Z.to_nat (count_complete b) < fuel)%nat ->
  clear_scan fuel b (BoardHeight - 1) 0 = Done (compacted b, count_complete b).
Proof.
  intros Hb Hfuel. pose proof Hb as [Hl _]. unfold count_complete in *.
  rewrite Nat2Z.id in Hfuel.
  rewrite (clear_scan_spec fuel b (length b)); [| done | lia | | ].
  - rewrite take_ge, drop_ge by lia. rewrite app_nil_r. done.
  - rewrite Hl. assert (BoardHeight = 20) by done. lia.
  - rewrite take_ge by lia. lia.
Qed.

Lemma set_board_same (g : Game) : set_board g (board g) = g.
Proof. by destruct g. Qed.

Lemma clearLines_fuel_spec (fuel : nat) (g : Game) :
  rect BoardHeight BoardWidth (board g) ->
  (Z.to_nat BoardHeight + Z.to_nat (count_complete (board g)) < fuel)%nat ->
  clearLines_fuel fuel g =
  if count_complete (board g) >? 0 then
    points <- index scoreTable (count_complete (board g)) ;;
    Done (after_clear g (count_complete (board g)) points)
  else Done g.
Proof.
  intros Hb Hfuel. unfold clearLines_fuel.
  rewrite clear_scan_enough by done. cbn [bind].
  destruct (Z.gtb_spec (count_complete (board g)) 0) as [Hk|Hk].
  - destruct (index scoreTable (count_complete (board g))); done.
  - pose proof (count_complete_bounds _ Hb).
    rewrite compacted_none by lia. by rewrite set_board_same.
Qed.

Lemma clearLines_spec (g : Game) :
  rect BoardHeight BoardWidth (board g) ->
  clearLines g =
  if count_complete (board g) >? 0 then
    points <- index scoreTable (count_complete (board g)) ;;
    Done (after_clear g (count_complete (board g)) points)
  else Done g.
Proof.
  intros Hb. apply clearLines_fuel_spec; [done|].
  pose proof (count_complete_bounds _ Hb). assert (BoardHeight = 20) by done. lia.
Qed.

(** C5.  One scan from the bottom row to the top row removes exactly the
    complete rows: the board becomes [compacted], and the count is the
    number [k] of complete rows.  With [k = 0] the state is unchanged.  With
    [0 < k <= 4], [lines] grows by [k], [score] by the entry [k] of the
    table [0, 100, 300, 500, 800] times the level before the call, and
    [level] becomes [lines / 10 + 1]; these are the machine operations, and
    they are the plain ones when nothing overflows. *)
Theorem clearLines_postcondition (g : Game) :
  rect BoardHeight BoardWidth (board g) ->
  let k := count_complete (board g) in
  (forall fuel, (Z.to_nat BoardHeight + Z.to_nat k < fuel)%nat ->
     clear_scan fuel (board g) (BoardHeight - 1) 0 = Done (compacted (board g), k))
  /\ (k = 0 -> clearLines g = Done g)
  /\ (0 < k <= 4 ->
      exists points,
        [0; 100; 300; 500; 800] !! Z.to_nat k = Some points
        /\ clearLines g = Done (after_clear g k points)
        /\ (forall fuel, (Z.to_nat BoardHeight + Z.to_nat k < fuel)%nat ->
              clearLines_fuel fuel g = Done (after_clear g k points))
        /\ (0 <= lines g -> Int.in_range (lines g + k) ->
            Int.in_range (points * level g) ->
            Int.in_range (score g + points * level g) ->
            lines (after_clear g k points) = lines g + k
            /\ score (after_clear g k points) = score g + points * level g
            /\ level (after_clear g k points) = (lines g + k) / 10 + 1)).
Proof.
  intros Hb k. split; [|split].
  - intros fuel Hfuel. by apply clear_scan_enough.
  - intros Hk. rewrite clearLines_spec by done. fold k. by rewrite Hk.
  - intros Hk.
    destruct (lookup_lt_is_Some_2 scoreTable (Z.to_nat k)) as [points Hp];
      [simpl; lia|].
    exists points. split; [done|].
    assert (Hidx : index scoreTable k = Done points) by (apply index_lookup; [lia|done]).
    assert (Hgt : (k >? 0) = true) by (apply Z.gtb_lt; lia).
    split; [|split].
    + rewrite clearLines_spec by done. fold k. by rewrite Hgt, Hidx.
    + intros fuel Hfuel. rewrite clearLines_fuel_spec by done. fold k.
      by rewrite Hgt, Hidx.
    + intros Hl Hlk Hpl Hs. simpl. unfold Int.add, Int.mul, Int.quot.
      rewrite (wrap_small (lines g + k)) by done.
      rewrite (wrap_small (points * level g)) by done.
      rewrite (wrap_small (score g + _)) by done.
      rewrite Z.quot_div_nonneg by lia.
      split; [done|]. split; [done|].
      assert (0 <= (lines g + k) / 10 /\ 10 * ((lines g + k) / 10) <= lines g + k).
      { split; [apply Z.div_pos; lia|]. apply Z.mul_div_le; lia. }
      rewrite (wrap_small ((lines g + k) / 10))
        by (unfold Int.in_range in *; change (2 ^ 63) with 9223372036854775808 in *; lia).
      apply wrap_small. unfold Int.in_range in *.
      change (2 ^ 63) with 9223372036854775808 in *. lia.
Qed.

Lemma complete_rows_insert (b : Grid) (i : nat) (row : list Z) :
  (length (complete_rows (<[i := row]> b)) <= S (length (complete_rows b)))%nat.
Proof.
  revert i. induction b as [|r b IH]; intros i; [simpl; lia|].
  assert (Hcons : forall (r0 : list Z) (l : Grid),
            (length (complete_rows l) <= length (complete_rows (r0 :: l))
             <= S (length (complete_rows l)))%nat).
  { intros r0 l. unfold complete_rows. destruct (complete r0) eqn:E.
    - rewrite filter_cons_True by done. simpl. lia.
    - rewrite filter_cons_False by (by rewrite E). lia. }
  destruct i as [|i]; simpl.
  - pose proof (Hcons row b). pose proof (Hcons r b). lia.
  - specialize (IH i). unfold complete_rows in *.
    destruct (complete r) eqn:E.
    + rewrite !filter_cons_True by done. simpl. lia.
    + rewrite !filter_cons_False by (by rewrite E). lia.
Qed.

Lemma lock_row_spec (g : Game) (y : Z) (row : list Z) (x0 : nat) (b : Grid) :
  rect BoardHeight BoardWidth b ->
  exists b', lock_row g b y (Z.of_nat x0) row = Done b'
    /\ rect BoardHeight BoardWidth b'
    /\ forall i, i <> Z.to_nat (Int.add (pieceY g) y) -> b' !! i = b !! i.
Proof.
  revert x0 b. induction row as [|c rest IH]; intros x0 b Hb.
  - exists b. done.
  - cbn [lock_row]. replace (Z.of_nat x0 + 1) with (Z.of_nat (S x0)) by lia.
    set (bY := Int.add (pieceY g) y). set (bX := Int.add (pieceX g) (Z.of_nat x0)).
    assert (Hstep : exists b1,
      (if c =? 1 then
         if (bY >=? 0) && (bY <? BoardHeight) && (bX >=? 0) && (bX <? BoardWidth)
         then grid_set b bY bX (Int.add (currPiece g) 1) else Done b
       else Done b) = Done b1
      /\ rect BoardHeight BoardWidth b1
      /\ forall i, i <> Z.to_nat bY -> b1 !! i = b !! i).
    { destruct (c =? 1); [|by exists b].
      destruct (Z.geb_spec bY 0); [|by exists b].
      destruct (Z.ltb_spec bY BoardHeight); [|by exists b].
      destruct (Z.geb_spec bX 0); [|by exists b].
      destruct (Z.ltb_spec bX BoardWidth); [|by exists b].
      simpl.
      destruct (grid_set_rect BoardHeight BoardWidth b (Z.to_nat bY) (Z.to_nat bX)
                  (Int.add (currPiece g) 1) Hb) as (b1 & Hset & Hb1 & Hsame & _);
        [lia | lia |].
      rewrite !Z2Nat.id in Hset by lia. by exists b1. }
    destruct Hstep as (b1 & -> & Hb1 & Hsame1). cbn [bind].
    destruct (IH (S x0) b1 Hb1) as (b' & Hrun & Hb' & Hsame').
    exists b'. split; [done|]. split; [done|].
    intros i Hi. rewrite Hsame' by done. by apply Hsame1.
Qed.

Lemma lock_rows_spec (g : Game) (shape : Grid) (y0 : Z) (b : Grid) :
  rect BoardHeight BoardWidth b ->
  exists b', lock_rows g b y0 shape = Done b'
    /\ rect BoardHeight BoardWidth b'
    /\ (length (complete_rows b') <= length (complete_rows b) + length shape)%nat.
Proof.
  revert y0 b. induction shape as [|row rest IH]; intros y0 b Hb.
  - exists b. split; [done|]. split; [done|]. lia.
  - cbn [lock_rows].
    destruct (lock_row_spec g y0 row 0 b Hb) as (b1 & Hrun1 & Hb1 & Hsame).
    change (Z.of_nat 0) with 0 in Hrun1. rewrite Hrun1. cbn [bind].
    destruct (IH (y0 + 1) b1 Hb1) as (b' & Hrun & Hb' & Hcount).
    exists b'. split; [done|]. split; [done|].
    destruct (differ_at_one b b1 _ [] ltac:(destruct Hb, Hb1; lia) Hsame) as [r ->].
    pose proof (complete_rows_insert b (Z.to_nat (Int.add (pieceY g) y0)) r).
    simpl length. lia.
Qed.

(** C10.  [clearLines] panics on the access [scoreTable[linesCleared]]
    exactly when more than four rows are complete.  When no row is complete
    and the shape has at most four rows, [lockPiece] leaves at most four
    complete rows, so the access made by the [clearLines] that follows is in
    bounds and the call returns. *)
Theorem scoreTable_access_in_bounds (g : Game) :
  rect BoardHeight BoardWidth (board g) ->
  (clearLines g = Panic <-> 4 < count_complete (board g))
  /\ (count_complete (board g) = 0 -> (length (currShape g) <= 4)%nat ->
      exists g1 points g2,
        lockPiece g = Done g1
        /\ 0 <= count_complete (board g1) <= 4
        /\ index scoreTable (count_complete (board g1)) = Done points
        /\ clearLines g1 = Done g2).
Proof.
  intros Hb. split.
  - rewrite clearLines_spec by done.
    pose proof (count_complete_bounds _ Hb) as Hk.
    destruct (Z.gtb_spec (count_complete (board g)) 0) as [Hpos|Hpos].
    + destruct (decide (count_complete (board g) <= 4)) as [Hle|Hgt].
      * destruct (lookup_lt_is_Some_2 scoreTable (Z.to_nat (count_complete (board g))))
          as [points Hp]; [simpl; lia|].
        rewrite (index_lookup _ _ points) by (done || lia). cbn [bind].
        split; [done | lia].
      * unfold index. destruct (Z.ltb_spec (count_complete (board g)) 0); [lia|].
        rewrite (proj2 (lookup_ge_None _ _)) by (simpl; lia). cbn [bind].
        split; [lia | done].
    + split; [done | lia].
  - intros Hk Hshape.
    destruct (lock_rows_spec g (currShape g) 0 (board g) Hb) as (b' & Hrun & Hb' & Hcount).
    unfold lockPiece. rewrite Hrun. cbn [bind].
    assert (Hk' : 0 <= count_complete b' <= 4).
    { unfold count_complete in *. lia. }
    destruct (lookup_lt_is_Some_2 scoreTable (Z.to_nat (count_complete b')))
      as [points Hp]; [simpl; lia|].
    assert (Hidx : index scoreTable (count_complete b') = Done points)
      by (apply index_lookup; [lia | done]).
    exists (set_board g b'), points.
    change (board (set_board g b')) with b'.
    destruct (count_complete b' >? 0) eqn:Egt.
    + exists (after_clear (set_board g b') (count_complete b') points).
      repeat split; try done; try lia.
      rewrite clearLines_spec by done.
      change (board (set_board g b')) with b'. by rewrite Egt, Hidx.
    + exists (set_board g b'). repeat split; try done; try lia.
      rewrite clearLines_spec by done.
      change (board (set_board g b')) with b'. by rewrite Egt.
Qed.

Lemma set_pieceY_same (g : Game) : set_pieceY g (pieceY g) = g.
Proof. by destruct g. Qed.

Lemma drop_moved (g0 g1 : Game) :
  move g0 0 1 = Done (g1, true) -> drop g0 = Done (g1, true).
Proof. intros Hm. unfold drop. by rewrite Hm. Qed.

Lemma drop_landed (g0 : Game) :
  move g0 0 1 = Done (g0, false) ->
  drop g0 = (g4 <- settle g0 ;; Done (g4, false)).
Proof.
  intros Hm. unfold drop, settle. rewrite Hm. cbn [bind].
  destruct (lockPiece g0) as [g2| |]; cbn [bind]; try done.
  destruct (clearLines g2) as [g3| |]; cbn [bind]; done.
Qed.

Section Falling.

Variable g : Game.
Hypothesis Hboard : rect BoardHeight BoardWidth (board g).
Hypothesis HpieceX : Int.in_range (pieceX g).
Hypothesis Hclear : collides g = Done false.

(* The piece lies between the walls, at whatever height. *)
Lemma columns_in_range (y x : nat) :
  filled (currShape g) y x -> 0 <= boardX_of g x < BoardWidth.
Proof.
  intros Hf. destruct (collides_spec g Hboard) as (c & Hc & Hiff).
  rewrite Hclear in Hc. injection Hc as <-.
  destruct (decide (0 <= boardX_of g x < BoardWidth)) as [|Hout]; [done|].
  assert (false = true); [|done]. apply Hiff. exists y, x. split; [done|].
  unfold cell_hits. lia.
Qed.

Lemma ghost_row_lockstep (ghostY : Z) (y : Z) (row : list Z) (x0 : nat) :
  (forall i, row !! i = Some 1 -> 0 <= boardX_of g (x0 + i) < BoardWidth) ->
  exists canMove,
    ghost_row g ghostY y (Z.of_nat x0) row = Done canMove
    /\ collides_row (set_pieceY g (Int.add ghostY 1)) y (Z.of_nat x0) row
       = Done (negb canMove).
Proof.
  revert x0. induction row as [|c rest IH]; intros x0 Hx.
  - by exists true.
  - cbn [ghost_row collides_row].
    replace (Z.of_nat x0 + 1) with (Z.of_nat (S x0)) by lia.
    assert (Hrest : forall i, rest !! i = Some 1 ->
                      0 <= boardX_of g (S x0 + i) < BoardWidth).
    { intros i Hi. replace (S x0 + i)%nat with (x0 + S i)%nat by lia. by apply Hx. }
    destruct (IH (S x0) Hrest) as (can & Hg & Hc).
    destruct (Z.eqb_spec c 1) as [->|Hc1]; [|by exists can].
    change (pieceX (set_pieceY g (Int.add ghostY 1))) with (pieceX g).
    change (pieceY (set_pieceY g (Int.add ghostY 1))) with (Int.add ghostY 1).
    change (board (set_pieceY g (Int.add ghostY 1))) with (board g).
    assert (HY : Int.add (Int.add ghostY 1) y = Int.add (Int.add ghostY y) 1).
    { unfold Int.add. rewrite !wrap_add_l. f_equal. lia. }
    rewrite HY. clear HY.
    specialize (Hx 0%nat eq_refl). rewrite Nat.add_0_r in Hx. unfold boardX_of in Hx.
    set (bX := Int.add (pieceX g) (Z.of_nat x0)) in *.
    set (bY := Int.add (Int.add ghostY y) 1).
    destruct (Z.ltb_spec bX 0); [lia|].
    destruct (Z.geb_spec bX BoardWidth); [lia|]. cbn [orb].
    destruct (Z.geb_spec bY BoardHeight); [by exists false|].
    destruct (Z.geb_spec bY 0).
    + destruct (grid_get_rect _ _ _ bY bX Hboard) as (r & v & _ & _ & _ & ->);
        [lia | lia |].
      cbn [bind]. destruct (negb (v =? 0)); [by exists false | by exists can].
    + cbn [bind]. by exists can.
Qed.

Lemma ghost_rows_lockstep (ghostY : Z) (shape : Grid) (y0 : nat) :
  (forall j i, filled shape j i -> 0 <= boardX_of g i < BoardWidth) ->
  exists canMove,
    ghost_rows g ghostY (Z.of_nat y0) shape = Done canMove
    /\ collides_rows (set_pieceY g (Int.add ghostY 1)) (Z.of_nat y0) shape
       = Done (negb canMove).
Proof.
  revert y0. induction shape as [|row rest IH]; intros y0 Hx.
  - by exists true.
  - cbn [ghost_rows collides_rows].
    destruct (ghost_row_lockstep ghostY (Z.of_nat y0) row 0) as (can1 & Hg1 & Hc1).
    { intros i Hi. apply (Hx 0%nat). by exists row. }
    change (Z.of_nat 0) with 0 in Hg1, Hc1. rewrite Hg1, Hc1. cbn [bind].
    replace (Z.of_nat y0 + 1) with (Z.of_nat (S y0)) by lia.
    destruct (IH (S y0)) as (can & Hg & Hc).
    { intros j i (r & Hr & Hi). apply (Hx (S j)). by exists r. }
    destruct can1; cbn [negb]; [by exists can | by exists false].
Qed.

(* One test of the lookahead is one tentative [move(0, 1)]. *)
Lemma ghost_step (ghostY : Z) :
  exists canMove,
    ghost_rows g ghostY 0 (currShape g) = Done canMove
    /\ collides (set_pieceY g (Int.add ghostY 1)) = Done (negb canMove).
Proof.
  destruct (ghost_rows_lockstep ghostY (currShape g) 0) as (can & Hg & Hc).
  { intros j i. apply columns_in_range. }
  by exists can.
Qed.

Lemma move_down (ghostY : Z) (canMove : bool) :
  Int.in_range ghostY ->
  collides (set_pieceY g (Int.add ghostY 1)) = Done (negb canMove) ->
  move (set_pieceY g ghostY) 0 1
  = Done (if canMove then (set_pieceY g (Int.add ghostY 1), true)
          else (set_pieceY g ghostY, false)).
Proof.
  intros Hy Hc. unfold move.
  change (pieceX (set_pieceY g ghostY)) with (pieceX g).
  rewrite add_zero by done.
  change (set_pieceY (set_pieceX (set_pieceY g ghostY) (pieceX g))
            (Int.add (pieceY (set_pieceX (set_pieceY g ghostY) (pieceX g))) 1))
    with (set_pieceY g (Int.add ghostY 1)).
  rewrite Hc. cbn [bind]. destruct canMove; cbn [negb]; [done|].
  do 2 f_equal. cbn. unfold Int.sub at 1. rewrite Z.sub_0_r, wrap_small by done.
  by rewrite add_sub_cancel.
Qed.

(* A filled cell reaches the floor after at most [2^64] steps. *)
Lemma floor_reached (ghostY : Z) (y x : nat) :
  filled (currShape g) y x ->
  exists K : nat,
    collides (set_pieceY g (Int.add (Int.wrap (ghostY + Z.of_nat K)) 1)) = Done true.
Proof.
  intros Hf.
  set (d := (BoardHeight - 1 - Z.of_nat y - ghostY) mod 2 ^ 64).
  assert (0 <= d) by (apply Z.mod_pos_bound; lia).
  exists (Z.to_nat d). rewrite Z2Nat.id by done.
  set (g' := set_pieceY g _).
  destruct (collides_spec g' Hboard) as (c & Hc & Hiff).
  rewrite Hc. f_equal. apply Hiff. exists y, x. split; [done|].
  right; right; left. unfold boardY_of, g'. cbn [pieceY set_pieceY].
  unfold Int.add. rewrite !wrap_add_l.
  pose proof (Z_div_mod_eq_full (BoardHeight - 1 - Z.of_nat y - ghostY) (2 ^ 64)) as E.
  fold d in E.
  rewrite <- Z.add_assoc, wrap_add_l.
  replace (ghostY + d + (1 + Z.of_nat y))
    with (BoardHeight + 2 ^ 64 * - ((BoardHeight - 1 - Z.of_nat y - ghostY) / 2 ^ 64)) by lia.
  rewrite wrap_shift. by vm_compute.
Qed.

Lemma descent (K : nat) : forall ghostY : Z,
  Int.in_range ghostY ->
  collides (set_pieceY g (Int.add (Int.wrap (ghostY + Z.of_nat K)) 1)) = Done true ->
  exists n : nat,
    let landed := set_pieceY g (Int.wrap (ghostY + Z.of_nat n)) in
    (forall fuel, (n < fuel)%nat ->
       ghost_loop fuel g ghostY = Done (Int.wrap (ghostY + Z.of_nat n)))
    /\ falls (set_pieceY g ghostY) n landed
    /\ move landed 0 1 = Done (landed, false)
    /\ (forall fuel, (n < fuel)%nat ->
          hardDrop fuel (set_pieceY g ghostY) = settle landed).
Proof.
  induction K as [|K IH]; intros ghostY Hy HK.
  - exists 0%nat. cbn zeta.
    rewrite Z.add_0_r, wrap_small in HK |- * by done.
    destruct (ghost_step ghostY) as (can & Hg & Hc).
    rewrite HK in Hc. injection Hc as Hcan. destruct can; [done|].
    pose proof (move_down ghostY false Hy HK) as Hm. cbn [negb] in Hm.
    split; [|split; [|split]].
    + intros [|fuel] Hf; [lia|]. cbn [ghost_loop]. by rewrite Hg.
    + constructor.
    + done.
    + intros [|fuel] Hf; [lia|]. cbn [hardDrop]. rewrite (drop_landed _ Hm).
      destruct (settle (set_pieceY g ghostY)); done.
  - destruct (ghost_step ghostY) as (can & Hg & Hc). destruct can.
    + pose proof (move_down ghostY true Hy Hc) as Hm. cbn iota in Hm.
      destruct (IH (Int.add ghostY 1)) as (n & Hghost & Hfalls & Hland & Hhard).
      { apply wrap_in_range. }
      { unfold Int.add at 2. rewrite wrap_add_l.
        replace (ghostY + 1 + Z.of_nat K) with (ghostY + Z.of_nat (S K)) by lia. done. }
      cbn zeta in Hghost, Hfalls, Hland, Hhard.
      assert (E : Int.wrap (Int.add ghostY 1 + Z.of_nat n)
                  = Int.wrap (ghostY + Z.of_nat (S n))).
      { unfold Int.add. rewrite wrap_add_l. f_equal. lia. }
      rewrite E in *. exists (S n). cbn zeta. split; [|split; [|split]].
      * intros [|fuel] Hf; [lia|]. cbn [ghost_loop]. rewrite Hg. cbn [bind].
        apply Hghost. lia.
      * econstructor; [|done]. by apply drop_moved.
      * done.
      * intros [|fuel] Hf; [lia|]. cbn [hardDrop].
        rewrite (drop_moved _ _ Hm). cbn [bind]. apply Hhard. lia.
    + exists 0%nat. cbn zeta. rewrite Z.add_0_r, wrap_small by done.
      pose proof (move_down ghostY false Hy Hc) as Hm. cbn iota in Hm.
      split; [|split; [|split]].
      * intros [|fuel] Hf; [lia|]. cbn [ghost_loop]. by rewrite Hg.
      * constructor.
      * done.
      * intros [|fuel] Hf; [lia|]. cbn [hardDrop]. rewrite (drop_landed _ Hm).
        destruct (settle (set_pieceY g ghostY)); done.
Qed.

End Falling.

(** C4.  The ghost is where the piece lands.  For a state whose piece has a
    filled cell and does not collide, there is a number [n] of rows such that
    [getGhostPosition] returns [(pieceX, finalY)] with any fuel above [n],
    [n] calls of [drop] in a row answer [true] and lead to the same state
    with [pieceY = finalY], and there [move(0, 1)] fails, so the next [drop]
    locks the piece at that position and answers [false]; the hard drop of
    [Run] locks it there too. *)
Theorem ghost_accuracy (g : Game) :
  rect BoardHeight BoardWidth (board g) ->
  Int.in_range (pieceX g) -> Int.in_range (pieceY g) ->
  (exists y x, filled (currShape g) y x) ->
  collides g = Done false ->
  exists (n : nat) (finalY : Z),
    let landed := set_pieceY g finalY in
    finalY = Int.wrap (pieceY g + Z.of_nat n)
    /\ (forall fuel, (n < fuel)%nat ->
          getGhostPosition fuel g = Done (pieceX g, finalY))
    /\ falls g n landed
    /\ move landed 0 1 = Done (landed, false)
    /\ drop landed = (g' <- settle landed ;; Done (g', false))
    /\ (forall fuel, (n < fuel)%nat -> hardDrop fuel g = settle landed).
Proof.
  intros Hb HX HY (y & x & Hf) Hc.
  destruct (floor_reached g Hb (pieceY g) y x Hf) as [K HK].
  destruct (descent g Hb HX Hc K (pieceY g) HY HK) as (n & Hghost & Hfalls & Hland & Hhard).
  cbn zeta in *. rewrite set_pieceY_same in Hfalls, Hhard.
  exists n, (Int.wrap (pieceY g + Z.of_nat n)). cbn zeta.
  split; [done|]. split; [|split; [done|split; [done|split; [|done]]]].
  - intros fuel Hfuel. unfold getGhostPosition. by rewrite Hghost.
  - by apply drop_landed.
Qed.

Lemma fresh_is_started : start only_O = Done fresh.
Proof. vm_compute. reflexivity. Qed.

Lemma stuck_is_reached :
  (g0 <- start only_O ;; run_keys 30 (replicate 10 key_space) g0) = Done stuck.
Proof. vm_compute. reflexivity. Qed.


Lemma offset_back (g : Game) (dx dy : Z) :
  Int.in_range (pieceX g) -> Int.in_range (pieceY g) ->
  set_pieceY (set_pieceX (offset g dx dy) (Int.sub (pieceX (offset g dx dy)) dx))
             (Int.sub (pieceY (set_pieceX (offset g dx dy)
                                 (Int.sub (pieceX (offset g dx dy)) dx))) dy)
  = g.
Proof.
  intros HX HY. destruct g. cbn in *. unfold offset, set_pieceY, set_pieceX. cbn.
  by rewrite !add_sub_cancel.
Qed.

Lemma move_spec (g : Game) (dx dy : Z) :
  rect BoardHeight BoardWidth (board g) ->
  Int.in_range (pieceX g) -> Int.in_range (pieceY g) ->
  exists c, collides (offset g dx dy) = Done c
    /\ move g dx dy = Done (if c then (g, false) else (offset g dx dy, true)).
Proof.
  intros Hb HX HY.
  destruct (collides_spec (offset g dx dy) Hb) as (c & Hc & _).
  exists c. split; [done|]. unfold move.
  change (set_pieceY (set_pieceX g (Int.add (pieceX g) dx))
            (Int.add (pieceY (set_pieceX g (Int.add (pieceX g) dx))) dy))
    with (offset g dx dy).
  rewrite Hc. cbn [bind]. destruct c; [|done].
  by rewrite offset_back.
Qed.


Lemma collides_row_ext (g g' : Game) (y x : Z) (row : list Z) :
  board g = board g' -> pieceX g = pieceX g' -> pieceY g = pieceY g' ->
  collides_row g y x row = collides_row g' y x row.
Proof.
  intros Hb HX HY. revert x. induction row as [|c rest IH]; intros x; [done|].
  cbn [collides_row]. by rewrite Hb, HX, HY, IH.
Qed.

Lemma collides_rows_ext (g g' : Game) (y : Z) (rows : Grid) :
  board g = board g' -> pieceX g = pieceX g' -> pieceY g = pieceY g' ->
  collides_rows g y rows = collides_rows g' y rows.
Proof.
  intros Hb HX HY. revert y. induction rows as [|row rest IH]; intros y; [done|].
  cbn [collides_rows]. by rewrite (collides_row_ext g g'), IH.
Qed.

Lemma collides_eq (g : Game) :
  collides g = collides_at (board g) (pieceX g) (pieceY g) (currShape g).
Proof. unfold collides_at, collides. by apply collides_rows_ext. Qed.

Lemma Intn_spec (r : RNG) (n : Z) :
  0 < n ->
  exists v, 0 <= v < n /\ Intn r n = Done (v, mkRNG (tape r) (S (cursor r))).
Proof.
  intros Hn. exists (tape r (cursor r) mod n). split; [by apply Z.mod_pos_bound|].
  unfold Intn. destruct (Z.leb_spec n 0); [lia | done].
Qed.

Lemma spawnPiece_fresh (g : Game) :
  nextPiece g = 0 -> board g = make_grid BoardHeight BoardWidth ->
  exists g1, spawnPiece g = Done g1
    /\ board g1 = board g /\ score g1 = score g /\ lines g1 = lines g
    /\ level g1 = level g /\ pieceY g1 = 0
    /\ paused g1 = paused g /\ gameOver g1 = gameOver g.
Proof.
  destruct g as [b cp cs np px py sc li le pa go r]. cbn. intros -> ->.
  unfold spawnPiece. cbn [nextPiece Z.eqb rng].
  change (Z.of_nat (length Shapes)) with 7.
  destruct (Intn_spec r 7) as (v & Hv & ->); [lia|]. cbn [bind].
  assert (Hcases : v = 0 \/ v = 1 \/ v = 2 \/ v = 3 \/ v = 4 \/ v = 5 \/ v = 6) by lia.
  destruct Hcases as [->|[->|[->|[->|[->|[->| ->]]]]]];
    cbn -[collides Intn];
    (match goal with |- context [Intn ?r 7] =>
       destruct (Intn_spec r 7) as (v2 & Hv2 & ->); [lia|] end);
    cbv -[collides Z.add]; rewrite collides_eq;
    (eexists; split; [vm_compute; reflexivity|]); done.
Qed.

Lemma reset_fields (g : Game) :
  rect BoardHeight BoardWidth (board g) ->
  exists g1, reset g = Done g1
    /\ board g1 = make_grid BoardHeight BoardWidth
    /\ score g1 = 0 /\ lines g1 = 0 /\ level g1 = 1 /\ pieceY g1 = 0
    /\ paused g1 = false /\ gameOver g1 = false.
Proof.
  intros Hb. unfold reset.
  match goal with |- context [spawnPiece ?g7] =>
    destruct (spawnPiece_fresh g7) as (g1 & Hrun & Hbd & Hs & Hl & Hv & Hy & Hp & Ho)
  end.
  - done.
  - cbn. by apply zero_grid_rect.
  - exists g1. split; [done|]. rewrite Hbd, Hs, Hl, Hv, Hp, Ho. cbn.
    rewrite (zero_grid_rect _ _ _ Hb). done.
Qed.

Lemma clockwise_quarter_turn (shape : Grid) (cols : nat) :
  shape <> [] -> Forall (fun row => length row = cols) shape ->
  clockwise_of shape (quarter_turn shape).
Proof.
  intros Hne Hshape. destruct shape as [|first rest]; [done|].
  assert (Hfirst : length first = cols) by (by apply Forall_inv in Hshape).
  set (shape := first :: rest) in *.
  assert (Hqt : quarter_turn shape
                = (fun x => reverse ((fun row => nth x row 0) <$> shape)) <$> seq 0 cols).
  { subst shape. unfold quarter_turn. by rewrite Hfirst. }
  rewrite Hqt. split.
  - exists cols. split; [|done]. split.
    + rewrite length_fmap, length_seq. lia.
    + apply Forall_fmap, Forall_forall. intros x _. unfold compose.
      rewrite length_reverse, length_fmap. lia.
  - intros y x v Hv. unfold cell in *.
    destruct (shape !! y) as [row|] eqn:Hrow; [|done].
    pose proof (Forall_lookup_1 _ _ _ _ Hshape Hrow) as Hlen. cbn in Hlen.
    pose proof (lookup_lt_Some _ _ _ Hv) as Hx.
    pose proof (lookup_lt_Some _ _ _ Hrow) as Hy.
    rewrite list_lookup_fmap, lookup_seq_lt by lia.
    change (?f <$> Some ?a) with (Some (f a)). cbv beta. rewrite Nat.add_0_l.
    rewrite reverse_lookup by (rewrite length_fmap; lia).
    rewrite length_fmap.
    replace (length shape - S (length shape - 1 - y))%nat with y by lia.
    rewrite list_lookup_fmap, Hrow. change (?f <$> Some ?a) with (Some (f a)).
    cbv beta. f_equal.
    apply nth_lookup_Some with (d := 0) in Hv. done.
Qed.

Lemma clockwise_functional (shape r r' : Grid) :
  shape <> [] -> clockwise_of shape r -> clockwise_of shape r' -> r = r'.
Proof.
  intros Hne [(cols & Hr & Hs) Hcell] [(cols' & Hr' & Hs') Hcell'].
  assert (cols' = cols) as ->.
  { destruct shape as [|first rest]; [done|].
    apply Forall_inv in Hs, Hs'. cbn in Hs, Hs'. congruence. }
  apply (grid_ext cols (length shape)); [done | done |].
  intros i j Hi Hj.
  destruct (cell_Some (length shape) cols shape (length shape - 1 - j) i) as [v Hv];
    [| lia | done |].
  { split; [lia|]. eapply Forall_impl; [exact Hs|]. cbn. intros; lia. }
  pose proof (Hcell _ _ _ Hv) as H1. pose proof (Hcell' _ _ _ Hv) as H2.
  replace (length shape - 1 - (length shape - 1 - j))%nat with j in H1, H2 by lia.
  by rewrite H1, H2.
Qed.

Lemma rotate_is_quarter_turn (g : Game) (cols : nat) :
  rect BoardHeight BoardWidth (board g) ->
  currShape g <> [] ->
  Forall (fun row => length row = cols) (currShape g) ->
  exists c,
    collides (set_currShape g (quarter_turn (currShape g))) = Done c
    /\ rotate g = Done (if c then g else set_currShape g (quarter_turn (currShape g))).
Proof.
  intros Hb Hne Hs.
  pose proof (clockwise_quarter_turn _ _ Hne Hs) as Hq.
  assert (Hrot : exists rotated c, clockwise_of (currShape g) rotated
            /\ collides (set_currShape g rotated) = Done c
            /\ rotate g = Done (if c then g else set_currShape g rotated)).
  { unfold rotate.
    destruct (currShape g) as [|first rest] eqn:Eshape; [done|].
    pose proof (Forall_inv Hs) as Hfirst. simpl in Hfirst.
    set (rows := length (first :: rest)).
    destruct (rotate_rows_spec rows cols (first :: rest) 0
                (make_grid (Z.of_nat cols) (Z.of_nat rows)))
      as (rotated & Hrun & Hrot & _ & Hcell); [apply rect_make | done | done |].
    destruct (collides_rows_spec (set_currShape g rotated) rotated 0 Hb) as (c & Hc & _).
    exists rotated, c. split; [|split; [done|]].
    - split; [by exists cols|]. intros y x v Hv. by apply Hcell.
    - assert (Hidx : index (first :: rest) 0 = Done first) by done.
      rewrite Hidx. cbn [bind]. fold rows. rewrite Hfirst.
      change (Z.of_nat 0) with 0 in Hrun. rewrite Hrun. cbn [bind].
      unfold collides. change (currShape (set_currShape g rotated)) with rotated.
      change (Z.of_nat 0) with 0 in Hc. rewrite Hc. cbn [bind]. destruct c; [|done].
      f_equal. rewrite <- Eshape. apply set_currShape_back. }
  destruct Hrot as (rotated & c & Hcw & Hc & Hrun).
  rewrite (clockwise_functional _ _ _ Hne Hcw Hq) in Hc, Hrun. by exists c.
Qed.

Lemma quarter_turn_rect (rows cols : nat) (shape : Grid) :
  (0 < rows)%nat ->
  rect (Z.of_nat rows) (Z.of_nat cols) shape ->
  rect (Z.of_nat cols) (Z.of_nat rows) (quarter_turn shape)
  /\ forall y x v, cell shape y x = Some v ->
       cell (quarter_turn shape) x (rows - 1 - y) = Some v.
Proof.
  intros Hrows Hs. pose proof Hs as [Hlen Hw].
  assert (Hne : shape <> []) by (intros ->; simpl in Hlen; lia).
  assert (Hw' : Forall (fun row => length row = cols) shape).
  { eapply Forall_impl; [exact Hw|]. cbn. intros; lia. }
  destruct (clockwise_quarter_turn shape cols Hne Hw') as [(cols' & Hr & Hs') Hcell].
  assert (cols' = cols) as ->.
  { destruct shape as [|first rest]; [done|].
    apply Forall_inv in Hs', Hw'. cbn in Hs', Hw'. congruence. }
  replace (length shape) with rows in * by lia. done.
Qed.

Lemma quarter_turn_four (rows cols : nat) (shape : Grid) :
  (0 < rows)%nat -> (0 < cols)%nat ->
  rect (Z.of_nat rows) (Z.of_nat cols) shape ->
  quarter_turn (quarter_turn (quarter_turn (quarter_turn shape))) = shape.
Proof.
  intros Hrows Hcols Hs.
  destruct (quarter_turn_rect rows cols shape Hrows Hs) as [H1 C1].
  destruct (quarter_turn_rect cols rows _ Hcols H1) as [H2 C2].
  destruct (quarter_turn_rect rows cols _ Hrows H2) as [H3 C3].
  destruct (quarter_turn_rect cols rows _ Hcols H3) as [H4 C4].
  apply (grid_ext rows cols); [done | done |]. intros i j Hi Hj.
  destruct (cell_Some rows cols shape i j Hs Hi Hj) as [v Hv]. rewrite Hv.
  pose proof (C4 _ _ _ (C3 _ _ _ (C2 _ _ _ (C1 _ _ _ Hv)))) as H.
  replace (rows - 1 - (rows - 1 - i))%nat with i in H by lia.
  replace (cols - 1 - (cols - 1 - j))%nat with j in H by lia. done.
Qed.

Lemma Shapes_lookup (v : Z) :
  0 <= v < 7 ->
  exists shape first,
    index Shapes v = Done shape /\ index shape 0 = Done first
    /\ shape_ok shape
    /\ 3 <= BoardWidth / 2 - Z.of_nat (length first) / 2 <= 4.
Proof.
  intros Hv.
  assert (Hcases : v = 0 \/ v = 1 \/ v = 2 \/ v = 3 \/ v = 4 \/ v = 5 \/ v = 6) by lia.
  destruct Hcases as [->|[->|[->|[->|[->|[->| ->]]]]]].
  - exists [[1; 1; 1; 1]], [1; 1; 1; 1]. repeat split; try done.
    exists 1%nat, 4%nat. repeat split; try lia; try (repeat constructor).
    exists 0%nat, 0%nat, [1; 1; 1; 1]. done.
  - exists [[1; 1]; [1; 1]], [1; 1]. repeat split; try done.
    exists 2%nat, 2%nat. repeat split; try lia; try (repeat constructor).
    exists 0%nat, 0%nat, [1; 1]. done.
  - exists [[0; 1; 0]; [1; 1; 1]], [0; 1; 0]. repeat split; try done.
    exists 2%nat, 3%nat. repeat split; try lia; try (repeat constructor).
    exists 0%nat, 1%nat, [0; 1; 0]. done.
  - exists [[0; 1; 1]; [1; 1; 0]], [0; 1; 1]. repeat split; try done.
    exists 2%nat, 3%nat. repeat split; try lia; try (repeat constructor).
    exists 0%nat, 1%nat, [0; 1; 1]. done.
  - exists [[1; 1; 0]; [0; 1; 1]], [1; 1; 0]. repeat split; try done.
    exists 2%nat, 3%nat. repeat split; try lia; try (repeat constructor).
    exists 0%nat, 0%nat, [1; 1; 0]. done.
  - exists [[1; 0; 0]; [1; 1; 1]], [1; 0; 0]. repeat split; try done.
    exists 2%nat, 3%nat. repeat split; try lia; try (repeat constructor).
    exists 0%nat, 0%nat, [1; 0; 0]. done.
  - exists [[0; 0; 1]; [1; 1; 1]], [0; 0; 1]. repeat split; try done.
    exists 2%nat, 3%nat. repeat split; try lia; try (repeat constructor).
    exists 0%nat, 2%nat, [0; 0; 1]. done.
Qed.

Lemma collides_set_gameOver (g : Game) (v : bool) :
  collides (set_gameOver g v) = collides g.
Proof. unfold collides. by apply collides_rows_ext. Qed.

Lemma collides_set_paused (g : Game) (v : bool) :
  collides (set_paused g v) = collides g.
Proof. unfold collides. by apply collides_rows_ext. Qed.

(* [spawnPiece] on a game that is not over. *)
Lemma spawn_invariant (g : Game) :
  board_ok (board g) -> 0 <= nextPiece g <= 7 -> gameOver g = false ->
  level g = Int.add (Int.quot (lines g) 10) 1 ->
  exists g', spawnPiece g = Done g' /\ invariant g'
    /\ board g' = board g /\ score g' = score g /\ lines g' = lines g
    /\ level g' = level g /\ paused g' = paused g.
Proof.
  destruct g as [b cp cs np px py sc li le pa go r]. cbn.
  intros Hb Hnp -> Hlevel. unfold spawnPiece. cbn [nextPiece rng].
  change (Z.of_nat (length Shapes)) with 7.
  assert (Hfirst : exists v r1, 0 <= v < 7 /\
    (if np =? 0
     then d <- Intn r 7 ;;
          (let '(v, r0) := d in
           Done (set_currPiece (set_rng (mkGame b cp cs np px py sc li le pa false r) r0) v))
     else Done (set_currPiece (mkGame b cp cs np px py sc li le pa false r) (Int.sub np 1)))
    = Done (mkGame b v cs np px py sc li le pa false r1)).
  { destruct (Z.eqb_spec np 0) as [->|Hne].
    - destruct (Intn_spec r 7) as (v & Hv & ->); [lia|]. cbn. eauto.
    - exists (np - 1), r. split; [lia|]. unfold Int.sub.
      rewrite wrap_small; [done|]. unfold Int.in_range.
      change (2 ^ 63) with 9223372036854775808. lia. }
  destruct Hfirst as (v & r1 & Hv & ->). cbn [bind currPiece].
  destruct (Shapes_lookup v Hv) as (shape & first & -> & Hidx & Hshape & Hx).
  cbn -[collides Intn BoardWidth Z.div Z.sub Z.add index]. rewrite Hidx.
  cbn -[collides Intn BoardWidth Z.div Z.sub Z.add index].
  destruct (Intn_spec r1 7) as (v2 & Hv2 & ->); [lia|].
  cbn -[collides BoardWidth Z.div Z.sub Z.add].
  match goal with |- context [collides ?g5] =>
    destruct (collides_spec g5) as (c & Hc & _); [apply Hb|]; rewrite Hc end.
  cbn [bind]. eexists. split; [done|].
  destruct c; cbn -[collides BoardWidth Z.div Z.sub Z.add]; (split; [|done]);
    unfold invariant; cbn -[collides BoardWidth Z.div Z.sub Z.add];
    (split; [done|]); (split; [done|]); (split; [lia|]); (split; [lia|]);
    (split; [unfold Int.in_range; change (2 ^ 63) with 9223372036854775808; lia|]);
    (split; [done|]); (split; [|done]).
  - rewrite <- Hc. unfold collides. by apply collides_rows_ext.
  - exact Hc.
Qed.

Lemma filled_row_bound (shape : Grid) (y x : nat) :
  shape_ok shape -> filled shape y x -> (y < 4)%nat /\ (x < 4)%nat.
Proof.
  intros (rows & cols & Hr & Hc & Hs & _) (row & Hrow & Hx).
  pose proof (lookup_lt_Some _ _ _ Hrow). pose proof (lookup_lt_Some _ _ _ Hx).
  pose proof (rect_lookup _ _ _ _ _ Hs Hrow). destruct Hs. lia.
Qed.

(* A piece that does not collide lies above the floor. *)
Lemma noncolliding_height (g : Game) :
  rect BoardHeight BoardWidth (board g) -> shape_ok (currShape g) ->
  0 <= pieceY g <= BoardHeight + 1 -> collides g = Done false ->
  pieceY g < BoardHeight.
Proof.
  intros Hb Hs Hy Hc. pose proof Hs as (_ & _ & _ & _ & _ & y & x & Hf).
  destruct (filled_row_bound _ _ _ Hs Hf) as [Hy4 _].
  destruct (collides_spec g Hb) as (c & Hc' & Hiff). rewrite Hc in Hc'.
  injection Hc' as <-.
  destruct (decide (pieceY g < BoardHeight)) as [|Hge]; [done|].
  assert (false = true); [|done]. apply Hiff. exists y, x. split; [done|].
  right; right; left. unfold boardY_of, Int.add. assert (BoardHeight = 20) as E by done.
  rewrite E in *. rewrite wrap_small; [lia|].
  unfold Int.in_range. change (2 ^ 63) with 9223372036854775808. lia.
Qed.

Lemma invariant_offset (g : Game) (dx dy : Z) :
  invariant g -> gameOver g = false -> 0 <= dy <= 1 ->
  collides (offset g dx dy) = Done false ->
  invariant (offset g dx dy) /\ pieceY (offset g dx dy) = pieceY g + dy.
Proof.
  intros (Hb & Hs & Hcp & Hnp & Hx & Hy & Hc & Hl) Hover Hdy Hc'.
  rewrite Hover in Hc.
  pose proof (noncolliding_height g (proj1 Hb) Hs ltac:(lia) Hc) as Hlt.
  assert (BoardHeight = 20) as E by done.
  assert (HY : Int.add (pieceY g) dy = pieceY g + dy).
  { unfold Int.add. apply wrap_small. unfold Int.in_range.
    change (2 ^ 63) with 9223372036854775808. lia. }
  split; [|exact HY]. unfold invariant.
  change (board (offset g dx dy)) with (board g).
  change (currShape (offset g dx dy)) with (currShape g).
  change (currPiece (offset g dx dy)) with (currPiece g).
  change (nextPiece (offset g dx dy)) with (nextPiece g).
  change (gameOver (offset g dx dy)) with (gameOver g).
  change (level (offset g dx dy)) with (level g).
  change (lines (offset g dx dy)) with (lines g).
  change (pieceX (offset g dx dy)) with (Int.add (pieceX g) dx).
  change (pieceY (offset g dx dy)) with (Int.add (pieceY g) dy).
  rewrite Hover, HY. repeat (split; [done || lia || apply wrap_in_range|]). done.
Qed.

Lemma move_invariant (g g' : Game) (dx dy : Z) (moved : bool) :
  invariant g -> gameOver g = false -> 0 <= dy <= 1 ->
  move g dx dy = Done (g', moved) ->
  invariant g' /\ gameOver g' = false
  /\ (if moved then pieceY g' = pieceY g + dy else g' = g).
Proof.
  intros Hinv Hover Hdy Hm. pose proof Hinv as (Hb & _ & _ & _ & Hx & Hy & _).
  destruct (move_spec g dx dy (proj1 Hb) Hx) as (c & Hc & Hrun).
  { unfold Int.in_range. change (2 ^ 63) with 9223372036854775808.
    assert (BoardHeight = 20) as E by done. lia. }
  rewrite Hrun in Hm. destruct c; injection Hm as <- <-; [done|].
  destruct (invariant_offset g dx dy Hinv Hover Hdy Hc) as [Hinv' HY]. done.
Qed.

Lemma move_total (g : Game) (dx dy : Z) :
  invariant g -> exists g' moved, move g dx dy = Done (g', moved).
Proof.
  intros (Hb & _ & _ & _ & Hx & Hy & _).
  destruct (move_spec g dx dy (proj1 Hb) Hx) as (c & Hc & Hrun).
  { unfold Int.in_range. change (2 ^ 63) with 9223372036854775808.
    assert (BoardHeight = 20) as E by done. lia. }
  rewrite Hrun. destruct c; eauto.
Qed.

Lemma shape_ok_quarter_turn (shape : Grid) :
  shape_ok shape -> shape_ok (quarter_turn shape).
Proof.
  intros (rows & cols & Hr & Hc & Hs & y & x & row & Hrow & Hx).
  destruct (quarter_turn_rect rows cols shape ltac:(lia) Hs) as [Hq Hcell].
  exists cols, rows. split; [done|]. split; [done|]. split; [done|].
  specialize (Hcell y x 1). unfold cell in Hcell. rewrite Hrow in Hcell.
  specialize (Hcell Hx). exists x, (rows - 1 - y)%nat.
  destruct (quarter_turn shape !! x) as [qrow|] eqn:E; [|done]. by exists qrow.
Qed.

Lemma shape_ok_rows (shape : Grid) :
  shape_ok shape -> shape <> [] /\ (length shape <= 4)%nat
                    /\ exists cols, Forall (fun row => length row = cols) shape.
Proof.
  intros (rows & cols & Hr & Hc & [Hl Hw] & _). split; [|split].
  - intros ->. simpl in Hl. lia.
  - lia.
  - exists cols. eapply Forall_impl; [exact Hw|]. cbn. intros; lia.
Qed.

Lemma rotate_invariant (g : Game) :
  invariant g -> gameOver g = false ->
  exists g', rotate g = Done g' /\ invariant g' /\ gameOver g' = false.
Proof.
  intros Hinv Hover. pose proof Hinv as (Hb & Hs & Hcp & Hnp & Hx & Hy & Hc & Hl).
  destruct (shape_ok_rows _ Hs) as (Hne & _ & cols & Hcols).
  destruct (rotate_is_quarter_turn g cols (proj1 Hb) Hne Hcols) as (c & Hc' & Hrun).
  rewrite Hrun. destruct c; [by exists g|].
  eexists. split; [done|]. split; [|done].
  unfold invariant. cbn -[collides]. rewrite Hover.
  repeat (split; [done || by apply shape_ok_quarter_turn|]). done.
Qed.

Lemma filter_partition_length (b : Grid) :
  (length (complete_rows b) + length (kept_rows b) = length b)%nat.
Proof.
  unfold complete_rows, kept_rows. induction b as [|row b IH]; [done|].
  destruct (complete row) eqn:E.
  - rewrite filter_cons_True by done. rewrite filter_cons_False by (by rewrite E).
    simpl. lia.
  - rewrite filter_cons_False by (by rewrite E). rewrite filter_cons_True by done.
    simpl. lia.
Qed.

Lemma complete_rows_kept (b : Grid) : complete_rows (kept_rows b) = [].
Proof.
  unfold complete_rows, kept_rows. induction b as [|row b IH]; [done|].
  destruct (complete row) eqn:E.
  - by rewrite filter_cons_False by (by rewrite E).
  - rewrite filter_cons_True by done. by rewrite filter_cons_False by (by rewrite E).
Qed.

Lemma complete_rows_zero (n : nat) : complete_rows (replicate n zero_row) = [].
Proof.
  unfold complete_rows. induction n as [|n IH]; [done|]. simpl replicate.
  by rewrite filter_cons_False by (by rewrite zero_row_incomplete).
Qed.

Lemma board_ok_compacted (b : Grid) :
  rect BoardHeight BoardWidth b -> cells_ok b -> board_ok (compacted b).
Proof.
  intros [Hl Hw] Hcells. unfold compacted. split; [|split].
  - split.
    + rewrite length_app, length_replicate. pose proof (filter_partition_length b). lia.
    + apply Forall_app. split.
      * apply Forall_replicate. unfold zero_row. by rewrite length_replicate.
      * unfold kept_rows. by apply Forall_filter_keep.
  - unfold count_complete, complete_rows. rewrite filter_app.
    fold (complete_rows (replicate (length (complete_rows b)) zero_row)).
    fold (complete_rows (kept_rows b)).
    by rewrite complete_rows_zero, complete_rows_kept.
  - apply Forall_app. split.
    + apply Forall_replicate. unfold zero_row. apply Forall_replicate. lia.
    + unfold kept_rows. by apply Forall_filter_keep.
Qed.

Lemma lock_row_cells (g : Game) (y : Z) (row : list Z) (x : Z) (b b' : Grid) :
  0 <= currPiece g < 7 -> cells_ok b ->
  lock_row g b y x row = Done b' -> cells_ok b'.
Proof.
  intros Hcp. revert x b. induction row as [|c rest IH]; intros x b Hb.
  - by intros [= <-].
  - cbn [lock_row].
    match goal with |- context [bind ?m _] => destruct m as [b1| |] eqn:E end; try done.
    cbn [bind]. apply IH.
    destruct (c =? 1); [|by injection E as <-].
    match type of E with (if ?t then _ else _) = _ => destruct t end;
      [|by injection E as <-].
    eapply grid_set_Forall; [exact E | exact Hb |].
    unfold Int.add. rewrite wrap_small; [lia|].
    unfold Int.in_range. change (2 ^ 63) with 9223372036854775808. lia.
Qed.

Lemma lock_rows_cells (g : Game) (shape : Grid) (y : Z) (b b' : Grid) :
  0 <= currPiece g < 7 -> cells_ok b ->
  lock_rows g b y shape = Done b' -> cells_ok b'.
Proof.
  intros Hcp. revert y b. induction shape as [|row rest IH]; intros y b Hb.
  - by intros [= <-].
  - cbn [lock_rows]. destruct (lock_row g b y 0 row) as [b1| |] eqn:E; try done.
    cbn [bind]. apply IH. by eapply lock_row_cells.
Qed.

Lemma board_ok_empty : board_ok (make_grid BoardHeight BoardWidth).
Proof.
  split; [apply rect_make|]. split; [reflexivity|].
  apply Forall_replicate, Forall_replicate. lia.
Qed.

Lemma settle_invariant (g : Game) :
  invariant g -> gameOver g = false ->
  exists g', settle g = Done g' /\ invariant g'.
Proof.
  intros (Hb & Hs & Hcp & Hnp & Hx & Hy & Hc & Hl) Hover.
  destruct Hb as (Hrect & Hcount & Hcells).
  destruct (shape_ok_rows _ Hs) as (_ & Hrows & _).
  destruct (lock_rows_spec g (currShape g) 0 (board g) Hrect) as (b' & Hlock & Hrect' & Hk).
  pose proof (lock_rows_cells g _ _ _ _ Hcp Hcells Hlock) as Hcells'.
  unfold settle, lockPiece. rewrite Hlock. cbn [bind].
  rewrite clearLines_spec by done. change (board (set_board g b')) with b'.
  assert (Hk' : 0 <= count_complete b' <= 4).
  { unfold count_complete in *. lia. }
  assert (Hclear : exists g3,
    (if count_complete b' >? 0
     then points <- index scoreTable (count_complete b') ;;
          Done (after_clear (set_board g b') (count_complete b') points)
     else Done (set_board g b')) = Done g3
    /\ board g3 = compacted b' /\ nextPiece g3 = nextPiece g
    /\ gameOver g3 = false /\ level g3 = Int.add (Int.quot (lines g3) 10) 1).
  { destruct (Z.gtb_spec (count_complete b') 0) as [Hpos|Hzero].
    - destruct (lookup_lt_is_Some_2 scoreTable (Z.to_nat (count_complete b')))
        as [points Hp]; [simpl; lia|].
      rewrite (index_lookup _ _ points) by (done || lia). cbn [bind].
      eexists. split; [done|]. done.
    - eexists. split; [done|]. cbn. rewrite compacted_none by lia. done. }
  destruct Hclear as (g3 & -> & Hb3 & Hn3 & Ho3 & Hl3). cbn [bind].
  destruct (spawn_invariant g3) as (g4 & Hrun & Hinv & _); try done.
  - rewrite Hb3. by apply board_ok_compacted.
  - lia.
  - by exists g4.
Qed.

Lemma drop_invariant (g : Game) :
  invariant g -> gameOver g = false ->
  exists g' moved, drop g = Done (g', moved) /\ invariant g'
    /\ (moved = true -> gameOver g' = false /\ pieceY g' = pieceY g + 1).
Proof.
  intros Hinv Hover. destruct (move_total g 0 1 Hinv) as (g1 & moved & Hm).
  destruct (move_invariant g g1 0 1 moved Hinv Hover ltac:(lia) Hm) as (Hinv1 & Hover1 & Hpos).
  unfold drop. rewrite Hm. cbn [bind]. destruct moved.
  - exists g1, true. done.
  - subst g1. fold (settle g).
    destruct (settle_invariant g Hinv Hover) as (g4 & Hrun & Hinv4).
    exists g4, false. assert (Hdrop := Hrun). unfold settle in Hdrop.
    destruct (lockPiece g) as [g2| |]; try done. cbn [bind] in *.
    destruct (clearLines g2) as [g3| |]; try done. cbn [bind] in *.
    rewrite Hdrop. done.
Qed.

Lemma hardDrop_invariant (fuel : nat) : forall g g',
  invariant g -> gameOver g = false -> hardDrop fuel g = Done g' -> invariant g'.
Proof.
  induction fuel as [|fuel IH]; intros g g' Hinv Hover; [done|].
  cbn [hardDrop].
  destruct (drop_invariant g Hinv Hover) as (g1 & moved & -> & Hinv1 & Hmoved).
  cbn [bind]. destruct moved.
  - destruct Hmoved as [Hover1 _]; [done|]. by apply IH.
  - by intros [= <-].
Qed.

Lemma hardDrop_total (fuel : nat) : forall g,
  invariant g -> gameOver g = false ->
  (Z.to_nat (BoardHeight - pieceY g) < fuel)%nat ->
  exists g', hardDrop fuel g = Done g'.
Proof.
  induction fuel as [|fuel IH]; intros g Hinv Hover Hfuel; [lia|].
  cbn [hardDrop].
  destruct (drop_invariant g Hinv Hover) as (g1 & moved & -> & Hinv1 & Hmoved).
  cbn [bind]. destruct moved; [|by eauto].
  destruct Hmoved as [Hover1 HY]; [done|].
  apply IH; [done | done |].
  destruct Hinv1 as (_ & _ & _ & _ & _ & Hy1 & _). lia.
Qed.

Lemma reset_invariant (g : Game) :
  rect BoardHeight BoardWidth (board g) ->
  exists g', reset g = Done g' /\ invariant g'.
Proof.
  intros Hb. unfold reset.
  match goal with |- context [spawnPiece ?g7] =>
    destruct (spawn_invariant g7) as (g' & Hrun & Hinv & _) end; try done.
  - cbn. rewrite (zero_grid_rect _ _ _ Hb). apply board_ok_empty.
  - by exists g'.
Qed.

Lemma invariant_set_paused (g : Game) (v : bool) :
  invariant g -> invariant (set_paused g v).
Proof.
  intros (Hb & Hs & Hcp & Hnp & Hx & Hy & Hc & Hl). unfold invariant.
  rewrite collides_set_paused. done.
Qed.

Lemma piece_invariant_reachable (g : Game) : reachable g -> invariant g.
Proof.
  induction 1 as [r g Hstart | fuel ev g g' _ IH Hkey | g g' _ IH Htick].
  - destruct (spawn_invariant (NewGame r)) as (g' & Hrun & Hinv & _); try done.
    + apply board_ok_empty.
    + unfold start in Hstart. rewrite Hrun in Hstart. by injection Hstart as <-.
  - unfold handleKey in Hkey.
    destruct (is_key ev KeyEscape); [done|].
    destruct (is_key ev KeyCtrlC || is_rune ev rune_q rune_Q); [done|].
    destruct (gameOver g) eqn:Hover.
    { destruct (is_rune ev rune_r rune_R); [|injection Hkey as <-; exact IH].
      destruct (reset_invariant g) as (g1 & Hrun & Hinv); [apply IH|].
      rewrite Hrun in Hkey. injection Hkey as <-. exact Hinv. }
    destruct (is_rune ev rune_p rune_P).
    { injection Hkey as <-. by apply invariant_set_paused. }
    destruct (paused g); [injection Hkey as <-; exact IH|].
    assert (Hmove : forall dx x, (m <- move g dx 0 ;; Done (Continue (fst m)))
                                 = Done (Continue x) -> invariant x).
    { intros dx x. destruct (move g dx 0) as [[g1 moved]| |] eqn:Em; try done.
      cbn. intros [= <-].
      by destruct (move_invariant g g1 dx 0 moved IH Hover ltac:(lia) Em). }
    destruct (evKey ev); try (injection Hkey as <-; exact IH).
    + destruct (rotate_invariant g IH Hover) as (g1 & Hrun & Hinv & _).
      rewrite Hrun in Hkey. injection Hkey as <-. exact Hinv.
    + destruct (drop_invariant g IH Hover) as (g1 & moved & Hrun & Hinv & _).
      rewrite Hrun in Hkey. injection Hkey as <-. exact Hinv.
    + by apply (Hmove (-1)).
    + by apply (Hmove 1).
    + destruct (evRune ev =? rune_space); [|injection Hkey as <-; exact IH].
      destruct (hardDrop fuel g) as [g1| |] eqn:Eh; try done.
      injection Hkey as <-. by eapply hardDrop_invariant.
  - unfold tick in Htick. destruct (gameOver g) eqn:Hover; cbn in Htick.
    + injection Htick as <-. exact IH.
    + destruct (paused g); cbn in Htick; [injection Htick as <-; exact IH|].
      destruct (drop_invariant g IH Hover) as (g1 & moved & Hrun & Hinv & _).
      rewrite Hrun in Htick. injection Htick as <-. exact Hinv.
Qed.

(** X7.  Four quarter turns bring the shape back: when the piece is free to
    turn (it collides in none of its four orientations), four calls of
    [rotate] in a row return the state they started from, and the first one
    gives the quarter turn of the shape. *)
Theorem rotate_four_times (g : Game) (rows cols : nat) :
  rect BoardHeight BoardWidth (board g) ->
  (0 < rows)%nat -> (0 < cols)%nat ->
  rect (Z.of_nat rows) (Z.of_nat cols) (currShape g) ->
  collides g = Done false ->
  collides (set_currShape g (quarter_turn (currShape g))) = Done false ->
  collides (set_currShape g (quarter_turn (quarter_turn (currShape g)))) = Done false ->
  collides (set_currShape g (quarter_turn (quarter_turn (quarter_turn (currShape g)))))
  = Done false ->
  rotate g = Done (set_currShape g (quarter_turn (currShape g)))
  /\ (g1 <- rotate g ;; g2 <- rotate g1 ;; g3 <- rotate g2 ;; rotate g3) = Done g.
Proof.
  intros Hb Hrows Hcols Hs H0 H1 H2 H3.
  assert (Hturn : forall (h : Game) (r c : nat),
            board h = board g -> pieceX h = pieceX g -> pieceY h = pieceY g ->
            (0 < r)%nat -> rect (Z.of_nat r) (Z.of_nat c) (currShape h) ->
            collides (set_currShape g (quarter_turn (currShape h))) = Done false ->
            rotate h = Done (set_currShape h (quarter_turn (currShape h)))).
  { intros h r c Eb Ex Ey Hr [Hl Hw] Hfree.
    destruct (rotate_is_quarter_turn h c) as (k & Hk & Hrun).
    - by rewrite Eb.
    - intros E. rewrite E in Hl. simpl in Hl. lia.
    - eapply Forall_impl; [exact Hw|]. cbn. intros; lia.
    - rewrite Hrun. assert (k = false) as ->; [|done].
      unfold collides in Hk, Hfree. cbn [currShape set_currShape] in Hk, Hfree.
      rewrite (collides_rows_ext _ (set_currShape g (quarter_turn (currShape h)))) in Hk
        by done.
      congruence. }
  destruct (quarter_turn_rect rows cols _ Hrows Hs) as [Hs1 _].
  destruct (quarter_turn_rect cols rows _ Hcols Hs1) as [Hs2 _].
  destruct (quarter_turn_rect rows cols _ Hrows Hs2) as [Hs3 _].
  pose proof (Hturn g rows cols eq_refl eq_refl eq_refl Hrows Hs H1) as R1.
  split; [exact R1|]. rewrite R1. cbn [bind].
  rewrite (Hturn (set_currShape g _) cols rows eq_refl eq_refl eq_refl Hcols Hs1 H2).
  cbn [bind].
  change (set_currShape (set_currShape ?a ?b) ?c) with (set_currShape a c).
  change (currShape (set_currShape ?a ?b)) with b.
  rewrite (Hturn (set_currShape g _) rows cols eq_refl eq_refl eq_refl Hrows Hs2 H3).
  cbn [bind].
  change (set_currShape (set_currShape ?a ?b) ?c) with (set_currShape a c).
  change (currShape (set_currShape ?a ?b)) with b.
  pose proof (quarter_turn_four rows cols _ Hrows Hcols Hs) as E4.
  rewrite (Hturn (set_currShape g _) cols rows eq_refl eq_refl eq_refl Hcols Hs3).
  - change (set_currShape (set_currShape ?a ?b) ?c) with (set_currShape a c).
    change (currShape (set_currShape ?a ?b)) with b.
    rewrite E4. f_equal. by destruct g.
  - change (currShape (set_currShape ?a ?b)) with b. rewrite E4.
    rewrite <- H0. unfold collides. by apply collides_rows_ext.
Qed.

(** X8.  The game is over exactly when the current piece overlaps: in every
    state that [Run] reaches [collides] answers [gameOver], so while the game
    is not over no filled cell of the piece is beyond a wall, below the
    floor or on an occupied cell. *)
Theorem piece_never_overlaps (g : Game) :
  reachable g ->
  collides g = Done (gameOver g)
  /\ (gameOver g = false ->
      forall y x, filled (currShape g) y x -> ~ cell_hits g y x).
Proof.
  intros Hreach.
  destruct (piece_invariant_reachable g Hreach) as (Hb & _ & _ & _ & _ & _ & Hc & _).
  split; [done|]. intros Hover y x Hf Hhit.
  destruct (collides_spec g (proj1 Hb)) as (c & Hc' & Hiff).
  rewrite Hc, Hover in Hc'. injection Hc' as <-.
  assert (false = true); [|done]. apply Hiff. eauto.
Qed.

(** X9.  The board keeps its form: in every state that [Run] reaches it has
    [BoardHeight] rows of [BoardWidth] cells, every cell is 0 or the number
    of a shape (1 to 7), and no row is complete. *)
Theorem board_stays_well_formed (g : Game) :
  reachable g ->
  rect BoardHeight BoardWidth (board g)
  /\ cells_ok (board g)
  /\ count_complete (board g) = 0.
Proof.
  intros Hreach. destruct (piece_invariant_reachable g Hreach) as ((Hr & Hk & Hc) & _). done.
Qed.

(** X10.  The pieces come from the table: in every state that [Run] reaches
    [currPiece] is an index of [Shapes], [nextPiece] is set to an index plus
    one, the shape is a rectangle of at most four rows and columns with a
    filled cell, and the piece is between the first row and the floor. *)
Theorem pieces_stay_well_formed (g : Game) :
  reachable g ->
  0 <= currPiece g < 7
  /\ 1 <= nextPiece g <= 7
  /\ (exists shape, index Shapes (Int.sub (nextPiece g) 1) = Done shape)
  /\ shape_ok (currShape g)
  /\ 0 <= pieceY g <= BoardHeight.
Proof.
  intros Hreach.
  destruct (piece_invariant_reachable g Hreach) as (_ & Hs & Hcp & Hnp & _ & Hy & _).
  split; [done|]. split; [done|]. split; [|done].
  assert (E : Int.sub (nextPiece g) 1 = nextPiece g - 1).
  { unfold Int.sub. apply wrap_small. unfold Int.in_range.
    change (2 ^ 63) with 9223372036854775808. lia. }
  rewrite E. destruct (Shapes_lookup (nextPiece g - 1)) as (shape & _ & Hi & _); [lia|].
  by exists shape.
Qed.

Lemma quot_500_bounds (l : Z) : l <> 0 -> -500 <= Z.quot 500 l <= 500.
Proof.
  intros Hl. destruct (Z.lt_trichotomy l 0) as [Hneg|[?|Hpos]]; [|lia|].
  - replace l with (- - l) by lia. rewrite Z.quot_opp_r by lia.
    pose proof (Z.quot_pos 500 (- l) ltac:(lia) ltac:(lia)).
    pose proof (Z.quot_le_upper_bound 500 (- l) 500 ltac:(lia) ltac:(nia)). lia.
  - pose proof (Z.quot_pos 500 l ltac:(lia) ltac:(lia)).
    pose proof (Z.quot_le_upper_bound 500 l 500 ltac:(lia) ltac:(nia)). lia.
Qed.

Lemma getDropInterval_plain (g : Game) :
  level g <> 0 -> getDropInterval g = Done (Z.max 50 (Z.quot 500 (level g))).
Proof.
  intros Hl. unfold getDropInterval. destruct (Z.eqb_spec (level g) 0); [done|].
  pose proof (quot_500_bounds (level g) Hl). unfold Int.quot.
  rewrite wrap_small
    by (unfold Int.in_range; change (2 ^ 63) with 9223372036854775808; lia).
  f_equal. destruct (Z.ltb_spec (Z.quot 500 (level g)) 50); lia.
Qed.

(** X13.  The drop interval: [getDropInterval] panics for the level 0 and for
    no other; otherwise it returns [max(50, 500 / level)], a value between 50
    and 500 that does not grow with the level and is 50 from level 10 on. *)
Theorem getDropInterval_bounds (g g' : Game) :
  (getDropInterval g = Panic <-> level g = 0)
  /\ (level g <> 0 ->
      getDropInterval g = Done (Z.max 50 (Z.quot 500 (level g)))
      /\ 50 <= Z.max 50 (Z.quot 500 (level g)) <= 500)
  /\ (10 <= level g -> getDropInterval g = Done 50)
  /\ (1 <= level g <= level g' ->
      exists ms ms', getDropInterval g = Done ms /\ getDropInterval g' = Done ms'
                     /\ ms' <= ms).
Proof.
  split; [|split; [|split]].
  - split.
    + intros Hp. destruct (decide (level g = 0)) as [|Hne]; [done|].
      by rewrite getDropInterval_plain in Hp.
    + intros Hl. unfold getDropInterval. by rewrite Hl.
  - intros Hl. split; [by apply getDropInterval_plain|].
    pose proof (quot_500_bounds (level g) Hl). lia.
  - intros Hl. rewrite getDropInterval_plain by lia. f_equal.
    pose proof (Z.quot_le_compat_l 500 10 (level g) ltac:(lia) ltac:(lia)) as Hq.
    change (Z.quot 500 10) with 50 in Hq. lia.
  - intros Hl. rewrite !getDropInterval_plain by lia. eexists _, _.
    split; [done|]. split; [done|].
    pose proof (Z.quot_le_compat_l 500 (level g) (level g') ltac:(lia) ltac:(lia)). lia.
Qed.

(** X11.  The level follows the lines: in every state that [Run] reaches
    [level] is [lines / 10 + 1]; as long as [lines] has not overflowed the
    level is at least 1 and the drop interval is defined. *)
Theorem level_follows_lines (g : Game) :
  reachable g ->
  level g = Int.add (Int.quot (lines g) 10) 1
  /\ (0 <= lines g < 2 ^ 62 ->
      level g = lines g / 10 + 1 /\ 1 <= level g
      /\ exists ms, getDropInterval g = Done ms /\ 50 <= ms <= 500).
Proof.
  intros Hreach. destruct (piece_invariant_reachable g Hreach) as (_ & _ & _ & _ & _ & _ & _ & Hl).
  split; [done|]. intros Hlines. change (2 ^ 62) with 4611686018427387904 in Hlines.
  assert (Hq : 0 <= lines g / 10 /\ 10 * (lines g / 10) <= lines g).
  { split; [apply Z.div_pos; lia | apply Z.mul_div_le; lia]. }
  assert (E : level g = lines g / 10 + 1).
  { rewrite Hl. unfold Int.add, Int.quot. rewrite Z.quot_div_nonneg by lia.
    rewrite (wrap_small (lines g / 10))
      by (unfold Int.in_range; change (2 ^ 63) with 9223372036854775808; lia).
    apply wrap_small. unfold Int.in_range. change (2 ^ 63) with 9223372036854775808. lia. }
  split; [done|]. split; [lia|].
  rewrite getDropInterval_plain by lia. eexists. split; [done|].
  pose proof (quot_500_bounds (level g) ltac:(lia)). lia.
Qed.

(** X12.  [Run] does not panic and the hard drop ends: in every state that
    [Run] reaches, the handling of any key event returns with any fuel above
    [BoardHeight], and the automatic fall returns. *)
Theorem tetris_run_never_panics (g : Game) :
  reachable g ->
  (forall fuel ev, (Z.to_nat BoardHeight < fuel)%nat ->
     exists c, handleKey fuel ev g = Done c)
  /\ (exists g', tick g = Done g')
  /\ (exists g', reset g = Done g').
Proof.
  intros Hreach. pose proof (piece_invariant_reachable g Hreach) as Hinv.
  assert (Hreset : exists g', reset g = Done g').
  { destruct (reset_invariant g) as (g' & Hr & _); [apply Hinv | eauto]. }
  split; [|split; [|done]].
  - intros fuel ev Hfuel. unfold handleKey.
    destruct (is_key ev KeyEscape); [eauto|].
    destruct (is_key ev KeyCtrlC || is_rune ev rune_q rune_Q); [eauto|].
    destruct (gameOver g) eqn:Hover.
    { destruct (is_rune ev rune_r rune_R); [|eauto].
      destruct Hreset as [g' ->]. cbn [bind]. eauto. }
    destruct (is_rune ev rune_p rune_P); [eauto|].
    destruct (paused g); [eauto|].
    destruct (evKey ev); eauto.
    + destruct (rotate_invariant g Hinv Hover) as (g1 & -> & _). cbn [bind]. eauto.
    + destruct (drop_invariant g Hinv Hover) as (g1 & moved & -> & _). cbn [bind]. eauto.
    + destruct (move_total g (-1) 0 Hinv) as (g1 & moved & ->). cbn [bind]. eauto.
    + destruct (move_total g 1 0 Hinv) as (g1 & moved & ->). cbn [bind]. eauto.
    + destruct (evRune ev =? rune_space); [|eauto].
      destruct (hardDrop_total fuel g Hinv Hover) as [g1 ->]; [|cbn [bind]; eauto].
      destruct Hinv as (_ & _ & _ & _ & _ & Hy & _). lia.
  - unfold tick. destruct (gameOver g) eqn:Hover; cbn; [eauto|].
    destruct (paused g); cbn; [eauto|].
    destruct (drop_invariant g Hinv Hover) as (g1 & moved & -> & _). cbn [bind]. eauto.
Qed.

Lemma compacted_rect (b : Grid) :
  rect BoardHeight BoardWidth b -> rect BoardHeight BoardWidth (compacted b).
Proof.
  intros [Hl Hw]. unfold compacted. split.
  - rewrite length_app, length_replicate. pose proof (filter_partition_length b). lia.
  - apply Forall_app. split.
    + apply Forall_replicate. unfold zero_row. by rewrite length_replicate.
    + unfold kept_rows. by apply Forall_filter_keep.
Qed.

Lemma compacted_count (b : Grid) : count_complete (compacted b) = 0.
Proof.
  unfold compacted, count_complete, complete_rows. rewrite filter_app.
  fold (complete_rows (replicate (length (complete_rows b)) zero_row)).
  fold (complete_rows (kept_rows b)).
  by rewrite complete_rows_zero, complete_rows_kept.
Qed.

(** X14.  One call of [clearLines] is enough: on a board with at most four
    complete rows it returns a board of the same size without any complete
    row, and a second call changes nothing. *)
Theorem clearLines_twice (g : Game) :
  rect BoardHeight BoardWidth (board g) -> count_complete (board g) <= 4 ->
  exists g1, clearLines g = Done g1
    /\ board g1 = compacted (board g)
    /\ rect BoardHeight BoardWidth (board g1)
    /\ count_complete (board g1) = 0
    /\ clearLines g1 = Done g1.
Proof.
  intros Hb Hk. pose proof (count_complete_bounds _ Hb) as Hk0.
  assert (Hrun : exists g1, clearLines g = Done g1 /\ board g1 = compacted (board g)).
  { rewrite clearLines_spec by done.
    destruct (Z.gtb_spec (count_complete (board g)) 0) as [Hpos|Hzero].
    - destruct (lookup_lt_is_Some_2 scoreTable (Z.to_nat (count_complete (board g))))
        as [points Hp]; [simpl; lia|].
      rewrite (index_lookup _ _ points) by (done || lia). cbn [bind]. eauto.
    - exists g. split; [done|]. by rewrite compacted_none by lia. }
  destruct Hrun as (g1 & Hrun & Hb1). exists g1.
  assert (Hr1 : rect BoardHeight BoardWidth (board g1))
    by (rewrite Hb1; by apply compacted_rect).
  assert (Hc1 : count_complete (board g1) = 0) by (rewrite Hb1; apply compacted_count).
  split; [done|]. split; [done|]. split; [done|]. split; [done|].
  rewrite clearLines_spec by done. by rewrite Hc1.
Qed.

Lemma offset_round_trip (g : Game) (dx dy : Z) :
  Int.in_range (pieceX g) -> Int.in_range (pieceY g) ->
  offset (offset g dx dy) (- dx) (- dy) = g.
Proof.
  destruct g as [b cp cs np px py sc li le pa go r]. unfold offset. cbn.
  intros Hx Hy. unfold Int.add. rewrite !wrap_add_l.
  replace (px + dx + - dx) with px by lia.
  replace (py + dy + - dy) with py by lia.
  rewrite (wrap_small px), (wrap_small py) by done. reflexivity.
Qed.

(** X15.  A move is undone by the opposite move: from a position that does
    not collide, a successful [move(dx, dy)] followed by [move(-dx, -dy)]
    succeeds too and gives back the state before the first move. *)
Theorem move_round_trip (g g1 : Game) (dx dy : Z) :
  rect BoardHeight BoardWidth (board g) ->
  Int.in_range (pieceX g) -> Int.in_range (pieceY g) ->
  collides g = Done false ->
  move g dx dy = Done (g1, true) ->
  move g1 (- dx) (- dy) = Done (g, true).
Proof.
  intros Hb Hx Hy Hc Hm.
  destruct (move_spec g dx dy Hb Hx Hy) as (c & _ & Hrun).
  rewrite Hrun in Hm. destruct c; [done|]. injection Hm as <-.
  pose proof (offset_round_trip g dx dy Hx Hy) as Hback.
  destruct (move_spec (offset g dx dy) (- dx) (- dy) Hb) as (c & Hc' & Hrun');
    [apply wrap_in_range | apply wrap_in_range |].
  rewrite Hback in Hc', Hrun'. rewrite Hc in Hc'. injection Hc' as <-. done.
Qed.

Lemma ghost_loop_mono (g : Game) (fuel : nat) : forall ghostY y fuel',
  ghost_loop fuel g ghostY = Done y -> (fuel <= fuel')%nat ->
  ghost_loop fuel' g ghostY = Done y.
Proof.
  induction fuel as [|fuel IH]; intros ghostY y fuel' Hrun Hle; [done|].
  destruct fuel' as [|fuel']; [lia|]. cbn [ghost_loop] in *.
  destruct (ghost_rows g ghostY 0 (currShape g)) as [can| |]; try done.
  cbn [bind] in *. destruct can; [|done]. apply IH; [done | lia].
Qed.

Lemma ghost_loop_bounded (g : Game) (fuel : nat) : forall ghostY,
  rect BoardHeight BoardWidth (board g) -> shape_ok (currShape g) ->
  collides g = Done false ->
  0 <= ghostY <= BoardHeight -> collides (set_pieceY g ghostY) = Done false ->
  (Z.to_nat (BoardHeight - ghostY) < fuel)%nat ->
  exists y, ghost_loop fuel g ghostY = Done y /\ ghostY <= y < BoardHeight
            /\ collides (set_pieceY g y) = Done false
            /\ collides (set_pieceY g (Int.add y 1)) = Done true.
Proof.
  induction fuel as [|fuel IH]; intros ghostY Hb Hs Hfree Hy Hc Hfuel; [lia|].
  assert (Hlt : ghostY < BoardHeight).
  { apply (noncolliding_height (set_pieceY g ghostY)); try done. cbn. lia. }
  cbn [ghost_loop]. destruct (ghost_step g Hb Hfree ghostY) as (can & -> & Hnext).
  cbn [bind]. destruct can; cbn [negb] in Hnext.
  - assert (E : Int.add ghostY 1 = ghostY + 1).
    { unfold Int.add. apply wrap_small. unfold Int.in_range.
      change (2 ^ 63) with 9223372036854775808.
      assert (BoardHeight = 20) as E by done. lia. }
    rewrite E in *.
    destruct (IH (ghostY + 1)) as (y & Hrun & Hrange & Hres); try done; try lia.
    exists y. split; [done|]. split; [lia | done].
  - exists ghostY. split; [done|]. split; [lia|]. done.
Qed.

(** X16.  The ghost lies on the board: in every state that [Run] reaches and
    in which the game is not over, [getGhostPosition] returns with any fuel
    above [BoardHeight]; its row is not above the piece and is above the
    floor, the piece does not collide there and collides one row lower. *)
Theorem ghost_within_board (g : Game) :
  reachable g -> gameOver g = false ->
  exists ghostY,
    (forall fuel, (Z.to_nat BoardHeight < fuel)%nat ->
       getGhostPosition fuel g = Done (pieceX g, ghostY))
    /\ pieceY g <= ghostY < BoardHeight
    /\ collides (set_pieceY g ghostY) = Done false
    /\ collides (set_pieceY g (Int.add ghostY 1)) = Done true.
Proof.
  intros Hreach Hover.
  destruct (piece_invariant_reachable g Hreach) as (Hb & Hs & _ & _ & _ & Hy & Hc & _).
  rewrite Hover in Hc.
  assert (Hhere : collides (set_pieceY g (pieceY g)) = Done false)
    by (by rewrite set_pieceY_same).
  destruct (ghost_loop_bounded g (S (Z.to_nat BoardHeight)) (pieceY g)
              (proj1 Hb) Hs Hc Hy Hhere ltac:(lia))
    as (y & Hrun & Hrange & Hfree & Hblocked).
  exists y. split; [|done]. intros fuel Hfuel.
  unfold getGhostPosition.
  rewrite (ghost_loop_mono g _ _ _ fuel Hrun) by lia. done.
Qed.

Lemma lock_cell_step (g : Game) (b : Grid) (c : Z) (y x : nat) :
  rect BoardHeight BoardWidth b ->
  exists b1,
    (if c =? 1 then
       let boardY := Int.add (pieceY g) (Z.of_nat y) in
       let boardX := Int.add (pieceX g) (Z.of_nat x) in
       if (boardY >=? 0) && (boardY <? BoardHeight)
          && (boardX >=? 0) && (boardX <? BoardWidth)
       then grid_set b boardY boardX (Int.add (currPiece g) 1)
       else Done b
     else Done b) = Done b1
    /\ rect BoardHeight BoardWidth b1
    /\ (forall i j, cell b i j = Some (Int.add (currPiece g) 1) ->
                    cell b1 i j = Some (Int.add (currPiece g) 1))
    /\ (forall i j, c = 1 -> boardY_of g y = Z.of_nat i -> boardX_of g x = Z.of_nat j ->
                    Z.of_nat i < BoardHeight -> Z.of_nat j < BoardWidth ->
                    cell b1 i j = Some (Int.add (currPiece g) 1))
    /\ (forall i j, ~ (c = 1 /\ boardY_of g y = Z.of_nat i /\ boardX_of g x = Z.of_nat j) ->
                    cell b1 i j = cell b i j).
Proof.
  intros Hb. fold (boardY_of g y). fold (boardX_of g x). cbv zeta.
  set (bY := boardY_of g y). set (bX := boardX_of g x).
  assert (Hskip : (bY < 0 \/ bY >= BoardHeight \/ bX < 0 \/ bX >= BoardWidth \/ c <> 1) ->
    exists b1, Done b = Done b1 /\ rect BoardHeight BoardWidth b1
    /\ (forall i j, cell b i j = Some (Int.add (currPiece g) 1) ->
                    cell b1 i j = Some (Int.add (currPiece g) 1))
    /\ (forall i j, c = 1 -> bY = Z.of_nat i -> bX = Z.of_nat j ->
                    Z.of_nat i < BoardHeight -> Z.of_nat j < BoardWidth ->
                    cell b1 i j = Some (Int.add (currPiece g) 1))
    /\ (forall i j, ~ (c = 1 /\ bY = Z.of_nat i /\ bX = Z.of_nat j) ->
                    cell b1 i j = cell b i j)).
  { intros Hout. exists b. split; [done|]. split; [done|]. split; [done|].
    split; [|done]. intros i j Hc HY HX Hi Hj. exfalso. lia. }
  destruct (Z.eqb_spec c 1) as [->|Hc]; [|apply Hskip; lia].
  destruct (Z.geb_spec bY 0) as [HY0|HY0]; cbn [andb]; [|apply Hskip; lia].
  destruct (Z.ltb_spec bY BoardHeight) as [HYH|HYH]; cbn [andb]; [|apply Hskip; lia].
  destruct (Z.geb_spec bX 0) as [HX0|HX0]; cbn [andb]; [|apply Hskip; lia].
  destruct (Z.ltb_spec bX BoardWidth) as [HXW|HXW]; cbn [andb]; [|apply Hskip; lia].
  clear Hskip.
  destruct (grid_set_rect BoardHeight BoardWidth b (Z.to_nat bY) (Z.to_nat bX)
              (Int.add (currPiece g) 1) Hb) as (b1 & Hset & Hb1 & _ & Hcell);
    [lia | lia |].
  rewrite !Z2Nat.id in Hset by lia. exists b1. split; [done|]. split; [done|].
  split; [|split].
  - intros i j Hv. rewrite Hcell. by case_decide.
  - intros i j _ HY HX _ _. rewrite Hcell. by rewrite decide_True by lia.
  - intros i j Hno. rewrite Hcell. rewrite decide_False; [done|].
    intros [-> ->]. apply Hno. rewrite !Z2Nat.id by lia. done.
Qed.

Lemma lock_row_cells_spec (g : Game) (y : nat) (row : list Z) : forall (x0 : nat) (b : Grid),
  rect BoardHeight BoardWidth b ->
  exists b', lock_row g b (Z.of_nat y) (Z.of_nat x0) row = Done b'
    /\ rect BoardHeight BoardWidth b'
    /\ (forall i j, cell b i j = Some (Int.add (currPiece g) 1) ->
                    cell b' i j = Some (Int.add (currPiece g) 1))
    /\ (forall k i j, row !! k = Some 1 ->
          boardY_of g y = Z.of_nat i -> boardX_of g (x0 + k) = Z.of_nat j ->
          Z.of_nat i < BoardHeight -> Z.of_nat j < BoardWidth ->
          cell b' i j = Some (Int.add (currPiece g) 1))
    /\ (forall i j,
          (forall k, row !! k = Some 1 ->
             ~ (boardY_of g y = Z.of_nat i /\ boardX_of g (x0 + k) = Z.of_nat j)) ->
          cell b' i j = cell b i j).
Proof.
  induction row as [|c rest IH]; intros x0 b Hb.
  - exists b. split_and!; try done; by intros k i j Hk.
  - cbn [lock_row].
    destruct (lock_cell_step g b c y x0 Hb) as (b1 & Hstep & Hb1 & Hkeep1 & Hhit1 & Hmiss1).
    cbv zeta in Hstep. cbv zeta. rewrite Hstep. cbn [bind]. replace (Z.of_nat x0 + 1) with (Z.of_nat (S x0)) by lia.
    destruct (IH (S x0) b1 Hb1) as (b' & Hrun & Hb' & Hkeep & Hhit & Hmiss).
    exists b'. split; [done|]. split; [done|]. split; [|split].
    + intros i j Hv. by apply Hkeep, Hkeep1.
    + intros k i j Hk HY HX Hi Hj. destruct k as [|k].
      * injection Hk as ->. rewrite Nat.add_0_r in HX. apply Hkeep. by apply Hhit1.
      * apply (Hhit k); try done. by replace (S x0 + k)%nat with (x0 + S k)%nat by lia.
    + intros i j Hno. rewrite Hmiss.
      * apply Hmiss1. intros (-> & HY & HX). apply (Hno 0%nat eq_refl).
        by rewrite Nat.add_0_r.
      * intros k Hk. replace (S x0 + k)%nat with (x0 + S k)%nat by lia.
        by apply (Hno (S k)).
Qed.

Lemma lock_rows_cells_spec (g : Game) (shape : Grid) : forall (y0 : nat) (b : Grid),
  rect BoardHeight BoardWidth b ->
  exists b', lock_rows g b (Z.of_nat y0) shape = Done b'
    /\ rect BoardHeight BoardWidth b'
    /\ (forall i j, cell b i j = Some (Int.add (currPiece g) 1) ->
                    cell b' i j = Some (Int.add (currPiece g) 1))
    /\ (forall y x i j, filled shape y x ->
          boardY_of g (y0 + y) = Z.of_nat i -> boardX_of g x = Z.of_nat j ->
          Z.of_nat i < BoardHeight -> Z.of_nat j < BoardWidth ->
          cell b' i j = Some (Int.add (currPiece g) 1))
    /\ (forall i j,
          (forall y x, filled shape y x ->
             ~ (boardY_of g (y0 + y) = Z.of_nat i /\ boardX_of g x = Z.of_nat j)) ->
          cell b' i j = cell b i j).
Proof.
  induction shape as [|row rest IH]; intros y0 b Hb.
  - exists b. split_and!; try done; by intros y x i j (r & Hr & _).
  - cbn [lock_rows].
    destruct (lock_row_cells_spec g y0 row 0 b Hb)
      as (b1 & Hrun1 & Hb1 & Hkeep1 & Hhit1 & Hmiss1).
    change (Z.of_nat 0) with 0 in Hrun1. rewrite Hrun1. cbn [bind].
    replace (Z.of_nat y0 + 1) with (Z.of_nat (S y0)) by lia.
    destruct (IH (S y0) b1 Hb1) as (b' & Hrun & Hb' & Hkeep & Hhit & Hmiss).
    exists b'. split; [done|]. split; [done|]. split; [|split].
    + intros i j Hv. by apply Hkeep, Hkeep1.
    + intros y x i j (r & Hr & Hx) HY HX Hi Hj. destruct y as [|y].
      * injection Hr as ->. rewrite Nat.add_0_r in HY. apply Hkeep.
        by apply (Hhit1 x).
      * apply (Hhit y x); try done; [by exists r|].
        by replace (S y0 + y)%nat with (y0 + S y)%nat by lia.
    + intros i j Hno. rewrite Hmiss.
      * apply Hmiss1. intros k Hk [HY HX]. apply (Hno 0%nat k); [by exists row|].
        by rewrite Nat.add_0_r.
      * intros y x (r & Hr & Hx). replace (S y0 + y)%nat with (y0 + S y)%nat by lia.
        apply (Hno (S y) x). by exists r.
Qed.

(** X17.  What [lockPiece] writes: on a board of the right size it returns,
    and the new board holds [currPiece + 1] in every cell of the board that a
    filled cell of the piece covers and is unchanged everywhere else; the
    filled cells that lie outside the board write nothing.  No other field
    changes. *)
Theorem lockPiece_cells (g : Game) :
  rect BoardHeight BoardWidth (board g) ->
  exists b', lockPiece g = Done (set_board g b')
    /\ rect BoardHeight BoardWidth b'
    /\ (forall y x i j, filled (currShape g) y x ->
          boardY_of g y = Z.of_nat i -> boardX_of g x = Z.of_nat j ->
          Z.of_nat i < BoardHeight -> Z.of_nat j < BoardWidth ->
          cell b' i j = Some (Int.add (currPiece g) 1))
    /\ (forall i j,
          (forall y x, filled (currShape g) y x ->
             ~ (boardY_of g y = Z.of_nat i /\ boardX_of g x = Z.of_nat j)) ->
          cell b' i j = cell (board g) i j).
Proof.
  intros Hb.
  destruct (lock_rows_cells_spec g (currShape g) 0 (board g) Hb)
    as (b' & Hrun & Hb' & _ & Hhit & Hmiss).
  exists b'. unfold lockPiece. change (Z.of_nat 0) with 0 in Hrun. rewrite Hrun.
  split; [done|]. split; [done|]. split; [exact Hhit | exact Hmiss].
Qed.

End TetrisProofs.

(** * Package snake: properties *)

Module SnakeProofs.

Import Snake.

Lemma scan_empty_board :
  scan_rows (make_grid BoardHeight BoardWidth) (Z.to_nat BoardHeight) 0 [] = Done all_cells.
Proof. vm_compute. reflexivity. Qed.

Lemma all_cells_length : List.length all_cells = 300%nat.
Proof. reflexivity. Qed.

Lemma all_cells_lookup (i : Z) :
  0 <= i < BoardWidth * BoardHeight -> all_cells !! Z.to_nat i = Some (cell_of i).
Proof.
  intros Hi. unfold all_cells. rewrite list_lookup_fmap.
  rewrite (lookup_seqZ_lt _ _ _) by lia. simpl. f_equal. f_equal. lia.
Qed.

Lemma cell_of_in_bounds (i : Z) :
  0 <= i < BoardWidth * BoardHeight -> in_bounds (cell_of i).
Proof.
  intros Hi. unfold in_bounds, cell_of. simpl.
  assert (BoardWidth = 20) as Hw by done. assert (BoardHeight = 15) as Hh by done.
  rewrite Hw, Hh in *. pose proof (Z.mod_pos_bound i 20).
  pose proof (Z.div_pos i 20). pose proof (Z.div_lt_upper_bound i 20 15). lia.
Qed.

Lemma cell_of_rank (p : Point) :
  in_bounds p -> cell_of (py p * BoardWidth + px p) = p
                 /\ 0 <= py p * BoardWidth + px p < BoardWidth * BoardHeight.
Proof.
  destruct p as [x y]. unfold in_bounds, cell_of. simpl.
  assert (BoardWidth = 20) as -> by done. assert (BoardHeight = 15) as -> by done.
  intros [Hx Hy]. split; [|lia]. f_equal.
  - rewrite Z.add_comm, Z_mod_plus_full. apply Z.mod_small. lia.
  - rewrite Z.add_comm, Z_div_plus_full by lia. rewrite Z.div_small by lia. lia.
Qed.

Lemma all_cells_elem (p : Point) : p ∈ all_cells <-> in_bounds p.
Proof.
  split.
  - intros Hp. apply list_elem_of_lookup in Hp as [n Hn].
    pose proof (lookup_lt_Some _ _ _ Hn) as Hlt. rewrite all_cells_length in Hlt.
    assert (Hr : 0 <= Z.of_nat n < BoardWidth * BoardHeight).
    { assert (BoardWidth * BoardHeight = 300) by done. lia. }
    pose proof (all_cells_lookup _ Hr) as Hl. rewrite Nat2Z.id in Hl.
    rewrite Hl in Hn. injection Hn as <-. by apply cell_of_in_bounds.
  - intros Hp. destruct (cell_of_rank p Hp) as [Hc Hr].
    apply list_elem_of_lookup. exists (Z.to_nat (py p * BoardWidth + px p)).
    rewrite all_cells_lookup by done. by rewrite Hc.
Qed.

Lemma all_cells_NoDup : NoDup all_cells.
Proof.
  unfold all_cells. apply NoDup_fmap_2_strong; [|apply NoDup_seqZ].
  intros i j Hi Hj Heq. apply elem_of_seqZ in Hi, Hj.
  unfold cell_of in Heq. injection Heq as Hm Hd.
  assert (BoardWidth = 20) as Hw by done. rewrite Hw in *.
  pose proof (Z_div_mod_eq_full i 20). pose proof (Z_div_mod_eq_full j 20). lia.
Qed.

Lemma spawnFood_empty_board (g : Game) :
  board g = make_grid BoardHeight BoardWidth ->
  spawnFood g
  = Done (set_food (set_rng g (drawn (rng g)))
            (cell_of (tape (rng g) (cursor (rng g)) mod (BoardWidth * BoardHeight)))).
Proof.
  intros Hb. unfold spawnFood. rewrite Hb, scan_empty_board. cbn [bind].
  rewrite all_cells_length.
  change (Z.of_nat 300 >? 0) with true. cbv iota.
  change (Z.of_nat 300) with (BoardWidth * BoardHeight).
  unfold Intn. change (BoardWidth * BoardHeight <=? 0) with false. cbv iota. cbn [bind].
  pose proof (Z.mod_pos_bound (tape (rng g) (cursor (rng g))) (BoardWidth * BoardHeight)
                ltac:(done)) as Hv.
  rewrite (index_lookup all_cells _ (cell_of (tape (rng g) (cursor (rng g))
                                              mod (BoardWidth * BoardHeight))));
    [done | lia | by apply all_cells_lookup].
Qed.

Lemma scan_row_total (b : Grid) (y : Z) (n : nat) (x : Z) (acc : list Point) :
  rect BoardHeight BoardWidth b -> 0 <= y < BoardHeight ->
  0 <= x -> x + Z.of_nat n <= BoardWidth ->
  exists l, scan_row b y n x acc = Done l.
Proof.
  intros Hb Hy. revert x acc. induction n as [|n IH]; intros x acc Hx Hn.
  - by exists acc.
  - cbn [scan_row].
    destruct (grid_get_rect _ _ b y x Hb) as (r & v & _ & _ & _ & ->); [lia | lia |].
    cbn [bind]. apply IH; lia.
Qed.

Lemma scan_rows_total (b : Grid) (n : nat) (y : Z) (acc : list Point) :
  rect BoardHeight BoardWidth b -> 0 <= y -> y + Z.of_nat n <= BoardHeight ->
  exists l, scan_rows b n y acc = Done l.
Proof.
  intros Hb. revert y acc. induction n as [|n IH]; intros y acc Hy Hn.
  - by exists acc.
  - cbn [scan_rows].
    destruct (scan_row_total b y (Z.to_nat BoardWidth) 0 acc Hb) as [l ->];
      [lia | lia | rewrite Z2Nat.id by done; lia |].
    cbn [bind]. apply IH; lia.
Qed.

(* [spawnFood] writes the food and draws from the source, nothing else. *)
Lemma spawnFood_total (g : Game) :
  rect BoardHeight BoardWidth (board g) ->
  exists g', spawnFood g = Done g' /\ set_rng (set_food g' (food g)) (rng g) = g.
Proof.
  intros Hb. unfold spawnFood.
  destruct (scan_rows_total (board g) (Z.to_nat BoardHeight) 0 [] Hb) as [l ->];
    [lia | rewrite Z2Nat.id by done; lia |].
  cbn [bind]. destruct (Z.gtb_spec (Z.of_nat (List.length l)) 0) as [Hl|Hl].
  - unfold Intn. destruct (Z.leb_spec (Z.of_nat (List.length l)) 0); [lia|].
    cbn [bind].
    pose proof (Z.mod_pos_bound (tape (rng g) (cursor (rng g))) (Z.of_nat (List.length l))
                  ltac:(lia)) as Hv.
    destruct (lookup_lt_is_Some_2 l
                (Z.to_nat (tape (rng g) (cursor (rng g)) mod Z.of_nat (List.length l))))
      as [p Hp]; [lia|].
    rewrite (index_lookup l _ p) by (done || lia). cbn [bind].
    eexists. split; [done|]. by destruct g.
  - exists g. split; [done|]. by destruct g.
Qed.

Lemma spawnFood_keeps (g g' : Game) :
  spawnFood g = Done g' -> set_rng (set_food g' (food g)) (rng g) = g.
Proof.
  unfold spawnFood.
  destruct (scan_rows (board g) (Z.to_nat BoardHeight) 0 []) as [l| |]; try done.
  cbn [bind]. destruct (Z.of_nat (List.length l) >? 0).
  - destruct (Intn (rng g) (Z.of_nat (List.length l))) as [[i r]| |]; try done.
    cbn [bind]. destruct (index l i) as [p| |]; try done.
    cbn [bind]. intros [= <-]. by destruct g.
  - intros [= <-]. by destruct g.
Qed.

Lemma start_snake_in_bounds : Forall in_bounds start_snake.
Proof. repeat constructor; done. Qed.

Lemma invariant_spawnFood (g g' : Game) :
  invariant g -> spawnFood g = Done g' -> invariant g'.
Proof.
  intros [Hb Hs] Hrun. apply spawnFood_keeps in Hrun.
  rewrite <- Hrun in Hb, Hs. by destruct g'.
Qed.

Lemma reset_unfold (g : Game) :
  reset g = spawnFood (mkGame (zero_grid (board g)) start_snake (food g) Up Up 0 3
                         false false (rng g)).
Proof. reflexivity. Qed.

Lemma invariant_reset (g g' : Game) :
  invariant g -> reset g = Done g' -> invariant g'.
Proof.
  intros [Hb Hs] Hrun. rewrite reset_unfold in Hrun.
  eapply invariant_spawnFood; [|exact Hrun]. split.
  - cbn [board]. rewrite Hb. apply zero_grid_rect, rect_make.
  - apply start_snake_in_bounds.
Qed.

Lemma collides_false_in_bounds (g : Game) (head : Point) :
  collides g head = false -> in_bounds head.
Proof.
  unfold collides, in_bounds.
  destruct (Z.ltb_spec (px head) 0); [done|].
  destruct (Z.geb_spec (px head) BoardWidth); [done|].
  destruct (Z.ltb_spec (py head) 0); [done|].
  destruct (Z.geb_spec (py head) BoardHeight); [done|]. lia.
Qed.

Lemma invariant_move (g g' : Game) (moved : bool) :
  invariant g -> move g = Done (g', moved) -> invariant g'.
Proof.
  intros [Hb Hs]. unfold move.
  destruct (index (snake (set_direction g (nextDir g))) 0) as [head0| |]; try done.
  cbn [bind]. set (g1 := set_direction g (nextDir g)).
  set (head := advance (direction g1) head0).
  destruct (collides g1 head) eqn:Ec.
  { intros [= <- <-]. done. }
  apply collides_false_in_bounds in Ec.
  assert (Hs' : Forall in_bounds (head :: snake g)) by (by constructor).
  destruct (Point_eqb head (food g1)).
  - match goal with |- context [spawnFood ?g4] => destruct (spawnFood g4) as [g5| |] eqn:Esp end;
      try done.
    cbn [bind]. intros [= <- <-]. eapply invariant_spawnFood; [|exact Esp]. done.
  - match goal with |- context [if ?c then _ else _] => destruct c end.
    + intros [= <- <-]. split; [done|]. cbn. by apply Forall_take.
    + intros [= <- <-]. done.
Qed.

Lemma invariant_reachable (g : Game) : reachable g -> invariant g.
Proof.
  induction 1 as [r g Hstart | ev g g' _ IH Hkey | g g' _ IH Htick].
  - eapply invariant_spawnFood; [|exact Hstart]. split; [done|].
    apply start_snake_in_bounds.
  - unfold handleKey in Hkey.
    assert (Hreset : forall x, (g0 <- reset g ;; Done (Continue g0)) = Done (Continue x)
                               -> invariant x).
    { intros x. destruct (reset g) as [g0| |] eqn:Er; try done.
      cbn [bind]. intros [= <-]. by eapply invariant_reset. }
    assert (Hturn : forall d o, invariant (turn g d o)).
    { intros d o. unfold turn. destruct (negb (Direction_eqb _ _)); exact IH. }
    destruct (evKey ev); try done;
      (destruct (gameOver g);
       [ destruct (is_rune ev rune_r rune_R);
         [ by apply Hreset | injection Hkey as <-; exact IH ]
       | destruct (is_rune ev rune_p rune_P); [injection Hkey as <-; exact IH|];
         destruct (paused g); [injection Hkey as <-; exact IH|] ]);
      try (injection Hkey as <-; first [exact IH | apply Hturn]).
    destruct (is_rune ev rune_r rune_R); [by apply Hreset | injection Hkey as <-; exact IH].
  - unfold tick in Htick. destruct (negb (gameOver g) && negb (paused g)).
    + destruct (move g) as [[g1 moved]| |] eqn:Em; try done.
      cbn in Htick. injection Htick as <-. by eapply invariant_move.
    + injection Htick as <-. exact IH.
Qed.

(** C9.  In every state that [Run] reaches the board of the snake game is
    the empty board: no cell of it is ever written with a non-zero value.
    So the scan of [spawnFood] collects all the [BoardWidth * BoardHeight]
    cells, each of them once, the food is the cell whose rank is the draw,
    and every cell of the snake is the food for some draw. *)
Theorem snake_board_never_written (g : Game) :
  reachable g ->
  board g = make_grid BoardHeight BoardWidth
  /\ (forall y x, (y < Z.to_nat BoardHeight)%nat -> (x < Z.to_nat BoardWidth)%nat ->
        cell (board g) y x = Some 0)
  /\ scan_rows (board g) (Z.to_nat BoardHeight) 0 [] = Done all_cells
  /\ List.length all_cells = Z.to_nat (BoardWidth * BoardHeight)
  /\ NoDup all_cells
  /\ (forall p, p ∈ all_cells <-> in_bounds p)
  /\ spawnFood g
     = Done (set_food (set_rng g (drawn (rng g)))
               (cell_of (tape (rng g) (cursor (rng g)) mod (BoardWidth * BoardHeight))))
  /\ (forall p, p ∈ snake g ->
        exists r g', spawnFood (set_rng g r) = Done g' /\ food g' = p).
Proof.
  intros Hreach. destruct (invariant_reachable g Hreach) as [Hb Hs].
  split; [done|]. split; [|split; [|split; [|split; [|split; [|split]]]]].
  - intros y x Hy Hx. rewrite Hb. unfold cell, make_grid.
    rewrite lookup_replicate_2 by done. by rewrite lookup_replicate_2.
  - rewrite Hb. apply scan_empty_board.
  - apply all_cells_length.
  - apply all_cells_NoDup.
  - apply all_cells_elem.
  - by apply spawnFood_empty_board.
  - intros p Hp. rewrite Forall_forall in Hs. specialize (Hs p Hp).
    destruct (cell_of_rank p Hs) as [Hc Hr].
    exists (mkRNG (fun _ => py p * BoardWidth + px p) 0). eexists.
    split; [by apply spawnFood_empty_board|]. cbn.
    rewrite Z.mod_small by done. done.
Qed.

(** C1, at the failing input.  With a source that draws 150, [Run] starts
    the game with the food on the head of the snake. *)
Theorem food_spawns_on_snake :
  start head_draw = Done bitten
  /\ reachable bitten
  /\ snake bitten !! 0%nat = Some (food bitten)
  /\ food bitten ∈ snake bitten.
Proof.
  assert (Hstart : start head_draw = Done bitten) by (vm_compute; reflexivity).
  split; [done|]. split; [by apply (reach_start head_draw)|].
  split; [reflexivity|]. apply list_elem_of_here.
Qed.

Lemma waiting_is_reached : handleKey key_p bitten = Done (Continue waiting).
Proof. reflexivity. Qed.

(** C3, counterexample.  In the paused state [waiting] the snake goes up;
    the request [Left] is not the opposite direction and yet it is not
    recorded. *)
Lemma request_dropped_while_paused :
  paused waiting = true /\ gameOver waiting = false
  /\ Left <> opposite (direction waiting)
  /\ handleKey (arrow Left) waiting = Done (Continue waiting)
  /\ nextDir waiting <> Left.
Proof. repeat split; try reflexivity; discriminate. Qed.

Lemma move_direction (g : Game) :
  rect BoardHeight BoardWidth (board g) -> snake g <> [] ->
  exists g' moved, move g = Done (g', moved) /\ direction g' = nextDir g.
Proof.
  intros Hb Hs. unfold move.
  destruct (snake g) as [|head0 rest] eqn:Es; [done|].
  cbn [set_direction snake]. rewrite Es.
  change (index (head0 :: rest) 0) with (Done head0). cbn [bind].
  set (g1 := set_direction g (nextDir g)).
  set (head := advance (direction g1) head0).
  destruct (collides g1 head); [by eexists _, _|].
  destruct (Point_eqb head (food g1)).
  - match goal with |- context [spawnFood ?g4] =>
      destruct (spawnFood_total g4 Hb) as (g5 & Hrun & Hkeep) end.
    rewrite Hrun. cbn [bind]. eexists _, _. split; [done|].
    apply (f_equal direction) in Hkeep. cbn in Hkeep. rewrite <- Hkeep. by destruct g5.
  - match goal with |- context [if ?c then _ else _] => destruct c end;
      by eexists _, _.
Qed.

Lemma opposite_eqb (d e : Direction) :
  negb (Direction_eqb e (opposite d)) = true <-> d <> opposite e.
Proof. destruct d, e; cbn; split; (done || intros; exfalso; auto). Qed.

(** C3, as amended.  While the game is paused (and not over) a key event
    other than Esc and [p]/[P], a direction request in particular, leaves
    the whole state unchanged.  While it is not paused, a request that is
    not the opposite of the current direction is recorded in [nextDir] and
    is the direction of the next [move]; the opposite one is dropped. *)
Theorem direction_request_guard (g : Game) :
  gameOver g = false ->
  (paused g = true ->
     forall ev, evKey ev <> KeyEscape -> is_rune ev rune_p rune_P = false ->
       handleKey ev g = Done (Continue g))
  /\ (paused g = false ->
      forall d,
        (d <> opposite (direction g) ->
           handleKey (arrow d) g = Done (Continue (set_nextDir g d))
           /\ (rect BoardHeight BoardWidth (board g) -> snake g <> [] ->
               exists g' moved,
                 move (set_nextDir g d) = Done (g', moved) /\ direction g' = d))
        /\ (d = opposite (direction g) -> handleKey (arrow d) g = Done (Continue g))).
Proof.
  intros Hover. split.
  - intros Hp ev Hesc Hrune. unfold handleKey. rewrite Hover, Hrune, Hp.
    by destruct (evKey ev).
  - intros Hp d. split.
    + intros Hd. split.
      * unfold handleKey. pose proof (proj2 (opposite_eqb d (direction g)) Hd) as E.
        destruct d; cbn -[is_rune]; rewrite Hover, Hp; cbn; unfold turn;
          cbn in E; by rewrite E.
      * intros Hb Hs. by apply (move_direction (set_nextDir g d)).
    + intros ->. unfold handleKey.
      destruct (direction g) eqn:E; cbn; rewrite Hover, Hp; unfold turn; by rewrite E.
Qed.

Lemma snake_reset_spec (g : Game) :
  rect BoardHeight BoardWidth (board g) ->
  reset g = Done (mkGame (make_grid BoardHeight BoardWidth) start_snake
                    (cell_of (tape (rng g) (cursor (rng g)) mod (BoardWidth * BoardHeight)))
                    Up Up 0 3 false false (drawn (rng g))).
Proof.
  intros Hb. unfold reset. rewrite spawnFood_empty_board.
  - cbn. by rewrite (zero_grid_rect _ _ _ Hb).
  - cbn. by apply zero_grid_rect.
Qed.

Lemma Point_eqb_eq (p q : Point) : Point_eqb p q = true <-> p = q.
Proof.
  destruct p as [x y], q as [x' y']. unfold Point_eqb. cbn.
  rewrite andb_true_iff, !Z.eqb_eq. split; [intros [-> ->]; done | intros [= -> ->]; done].
Qed.

Lemma opposite_irrefl (d : Direction) : d <> opposite d.
Proof. by destruct d. Qed.

Lemma turn_steady (g : Game) (d : Direction) :
  nextDir g <> opposite (direction g) ->
  nextDir (turn g d (opposite d)) <> opposite (direction (turn g d (opposite d))).
Proof.
  intros Hn. unfold turn.
  destruct (direction g) eqn:Ed, d; cbn; rewrite ?Ed; cbn; try done; by rewrite Ed in Hn.
Qed.

Lemma steady_after_spawn (g g' : Game) :
  board g = make_grid BoardHeight BoardWidth -> spawnFood g = Done g' ->
  nextDir g <> opposite (direction g) ->
  (3 <= List.length (snake g))%nat ->
  length g = Int.wrap (Z.of_nat (List.length (snake g))) ->
  score g = Int.wrap (10 * (Z.of_nat (List.length (snake g)) - 3)) ->
  steady g'.
Proof.
  intros Hb Hrun Hd Hl Hlen Hscore. rewrite spawnFood_empty_board in Hrun by done.
  injection Hrun as <-. split; [done|]. split; [done|]. split; [done|].
  split; [done|]. cbn. apply cell_of_in_bounds, Z.mod_pos_bound. done.
Qed.

Lemma steady_move (g g' : Game) (moved : bool) :
  invariant g -> steady g -> move g = Done (g', moved) -> steady g'.
Proof.
  intros [Hb _] (Hd & Hl & Hlen & Hscore & Hfood). unfold move.
  destruct (index (snake (set_direction g (nextDir g))) 0) as [head0| |]; try done.
  cbn [bind]. set (g1 := set_direction g (nextDir g)).
  set (head := advance (direction g1) head0).
  destruct (collides g1 head).
  { intros [= <- <-]. split; [|done]. cbn. apply opposite_irrefl. }
  destruct (Point_eqb head (food g1)).
  - match goal with |- context [spawnFood ?g4] =>
      destruct (spawnFood g4) as [g5| |] eqn:Esp end; try done.
    cbn [bind]. intros [= <- <-].
    eapply steady_after_spawn; [| exact Esp | | | |]; cbn.
    + done.
    + apply opposite_irrefl.
    + lia.
    + rewrite Hlen. unfold Int.add. rewrite wrap_add_l. f_equal. lia.
    + rewrite Hscore. unfold Int.add. rewrite wrap_add_l. f_equal. lia.
  - cbn [snake set_snake length set_direction List.length].
    change (snake g1) with (snake g). change (length g1) with (length g).
    rewrite Hlen.
    pose proof (wrap_le (Z.of_nat (List.length (snake g))) ltac:(lia)) as Hw.
    destruct (Z.gtb_spec (Z.of_nat (S (List.length (snake g))))
                (Int.wrap (Z.of_nat (List.length (snake g))))) as [_|?]; [|lia].
    intros [= <- <-].
    assert (E : List.length (take (S (List.length (snake g)) - 1) (head :: snake g))
                = List.length (snake g)).
    { rewrite length_take. cbn. lia. }
    split; [cbn; apply opposite_irrefl|]. cbn -[take Nat.sub].
    change (S (List.length (snake g)) - 1)%nat with (List.length (snake g) - 0)%nat in E.
    by rewrite E.
Qed.

Lemma steady_reset (g g' : Game) :
  invariant g -> reset g = Done g' -> steady g'.
Proof.
  intros [Hb _] Hrun. rewrite snake_reset_spec in Hrun by (rewrite Hb; apply rect_make).
  injection Hrun as <-. split; [done|]. split; [cbn; lia|]. split; [done|].
  split; [done|]. cbn. apply cell_of_in_bounds, Z.mod_pos_bound. done.
Qed.

Lemma steady_reachable (g : Game) : reachable g -> steady g.
Proof.
  induction 1 as [r g Hstart | ev g g' Hreach IH Hkey | g g' Hreach IH Htick].
  - eapply steady_after_spawn; [| exact Hstart | | | |]; done.
  - pose proof (invariant_reachable g Hreach) as Hinv.
    unfold handleKey in Hkey.
    assert (Hreset : forall x, (g0 <- reset g ;; Done (Continue g0)) = Done (Continue x)
                               -> steady x).
    { intros x. destruct (reset g) as [g0| |] eqn:Er; try done.
      cbn [bind]. intros [= <-]. by eapply steady_reset. }
    assert (Hturn : forall d, steady (turn g d (opposite d))).
    { intros d. destruct IH as (Hd & Hrest). split; [by apply turn_steady|].
      unfold turn. by destruct (negb (Direction_eqb _ _)). }
    destruct (evKey ev); try done;
      (destruct (gameOver g);
       [ destruct (is_rune ev rune_r rune_R);
         [ by apply Hreset | injection Hkey as <-; exact IH ]
       | destruct (is_rune ev rune_p rune_P); [injection Hkey as <-; exact IH|];
         destruct (paused g); [injection Hkey as <-; exact IH|] ]);
      try (injection Hkey as <-;
           first [exact IH | apply (Hturn Up) | apply (Hturn Down)
                 | apply (Hturn Left) | apply (Hturn Right)]).
    destruct (is_rune ev rune_r rune_R); [by apply Hreset | injection Hkey as <-; exact IH].
  - pose proof (invariant_reachable g Hreach) as Hinv.
    unfold tick in Htick. destruct (negb (gameOver g) && negb (paused g)).
    + destruct (move g) as [[g1 moved]| |] eqn:Em; try done.
      cbn in Htick. injection Htick as <-. by eapply steady_move.
    + injection Htick as <-. exact IH.
Qed.


(** X2.  The counters follow the body: in every state that [Run] reaches the
    snake has at least three cells, [length] is the number of its cells and
    [score] is ten times the number of cells gained since the start or the
    last reset (as machine integers; as plain integers below 2^59 cells). *)
Theorem snake_length_and_score (g : Game) :
  reachable g ->
  (3 <= List.length (snake g))%nat
  /\ length g = Int.wrap (Z.of_nat (List.length (snake g)))
  /\ score g = Int.wrap (10 * (Z.of_nat (List.length (snake g)) - 3))
  /\ (Z.of_nat (List.length (snake g)) < 2 ^ 59 ->
      length g = Z.of_nat (List.length (snake g))
      /\ score g = 10 * (Z.of_nat (List.length (snake g)) - 3)).
Proof.
  intros Hreach. destruct (steady_reachable g Hreach) as (_ & Hl & Hlen & Hscore & _).
  split; [done|]. split; [done|]. split; [done|]. intros Hsmall.
  rewrite Hlen, Hscore. change (2 ^ 59) with 576460752303423488 in Hsmall.
  split; apply wrap_small; unfold Int.in_range;
    change (2 ^ 63) with 9223372036854775808; lia.
Qed.

(** X3.  Everything stays on the board: in every state that [Run] reaches
    the food and all the cells of the snake have coordinates inside the
    board. *)
Theorem snake_stays_on_board (g : Game) :
  reachable g -> in_bounds (food g) /\ Forall in_bounds (snake g).
Proof.
  intros Hreach. destruct (steady_reachable g Hreach) as (_ & _ & _ & _ & Hfood).
  destruct (invariant_reachable g Hreach) as [_ Hs]. done.
Qed.

(** X4.  [Run] does not panic: in every state that it reaches, the handling
    of any key event and the automatic step both return. *)
Theorem snake_run_never_panics (g : Game) :
  reachable g ->
  (forall ev, exists c, handleKey ev g = Done c)
  /\ (exists g', tick g = Done g')
  /\ (exists g', reset g = Done g')
  /\ (exists g' moved, move g = Done (g', moved)).
Proof.
  intros Hreach. destruct (steady_reachable g Hreach) as (_ & Hl & _).
  destruct (invariant_reachable g Hreach) as [Hb _].
  assert (Hrect : rect BoardHeight BoardWidth (board g)) by (rewrite Hb; apply rect_make).
  assert (Hmove : exists g' moved, move g = Done (g', moved)).
  { destruct (move_direction g Hrect) as (g' & moved & Hm & _); [|by eauto].
    intros E. rewrite E in Hl. simpl in Hl. lia. }
  assert (Hreset : exists g', reset g = Done g') by (rewrite snake_reset_spec; eauto).
  split; [|split; [|done]].
  - intros ev. unfold handleKey. destruct Hreset as [g' ->]. cbn [bind].
    destruct (evKey ev), (gameOver g), (is_rune ev rune_r rune_R),
      (is_rune ev rune_p rune_P), (paused g); eauto.
  - unfold tick. destruct Hmove as (g' & moved & ->).
    destruct (negb (gameOver g) && negb (paused g)); cbn; eauto.
Qed.

(** X5.  The speed has a floor and does not rise with the score: [getSpeed]
    is [max(SpeedFast, SpeedNormal - score / 5)], never below [SpeedFast],
    never above [SpeedNormal] for a score that is not negative, and equal to
    [SpeedFast] from the score 350 on. *)
Theorem getSpeed_bounds (g g' : Game) :
  Int.in_range (score g) -> Int.in_range (score g') -> score g <= score g' ->
  getSpeed g = Z.max SpeedFast (SpeedNormal - Z.quot (score g) 5)
  /\ getSpeed g' <= getSpeed g
  /\ SpeedFast <= getSpeed g
  /\ (0 <= score g -> getSpeed g <= SpeedNormal)
  /\ (350 <= score g -> getSpeed g = SpeedFast).
Proof.
  assert (Hplain : forall h, Int.in_range (score h) ->
            getSpeed h = Z.max SpeedFast (SpeedNormal - Z.quot (score h) 5)).
  { intros h Hr. unfold getSpeed, Int.sub, Int.quot, SpeedFast, SpeedNormal.
    unfold Int.in_range in Hr. change (2 ^ 63) with 9223372036854775808 in Hr.
    assert (Hq : -1844674407370955161 <= Z.quot (score h) 5 <= 1844674407370955161).
    { split.
      - change (-1844674407370955161) with (Z.quot (-9223372036854775808) 5).
        apply Z.quot_le_mono; lia.
      - change 1844674407370955161 with (Z.quot 9223372036854775808 5).
        apply Z.quot_le_mono; lia. }
    rewrite (wrap_small (Z.quot (score h) 5))
      by (unfold Int.in_range; change (2 ^ 63) with 9223372036854775808; lia).
    rewrite wrap_small
      by (unfold Int.in_range; change (2 ^ 63) with 9223372036854775808; lia).
    destruct (Z.ltb_spec (150 - Z.quot (score h) 5) 80); lia. }
  intros Hr Hr' Hle. rewrite (Hplain g Hr), (Hplain g' Hr').
  unfold SpeedFast, SpeedNormal.
  pose proof (Z.quot_le_mono (score g) (score g') 5 ltac:(lia) Hle).
  split; [done|]. split; [lia|]. split; [lia|]. split.
  - intros H0. pose proof (Z.quot_pos (score g) 5 H0 ltac:(lia)). lia.
  - intros H350. pose proof (Z.quot_le_mono 350 (score g) 5 ltac:(lia) H350) as Hq.
    change (Z.quot 350 5) with 70 in Hq. lia.
Qed.

Lemma hits_body_spec (head : Point) (s : list Point) :
  hits_body head s = true <-> head ∈ take (List.length s - 1) s.
Proof.
  induction s as [|p rest IH]; [cbn; by rewrite elem_of_nil|].
  destruct rest as [|q rest].
  - cbn. by rewrite elem_of_nil.
  - change (hits_body head (p :: q :: rest))
      with (if Point_eqb p head then true else hits_body head (q :: rest)).
    assert (Et : take (List.length (p :: q :: rest) - 1) (p :: q :: rest)
                 = p :: take (List.length (q :: rest) - 1) (q :: rest)).
    { cbn [List.length]. by rewrite !Nat.sub_succ, !Nat.sub_0_r. }
    rewrite Et, elem_of_cons. destruct (Point_eqb p head) eqn:E.
    + apply Point_eqb_eq in E. split; [by left | done].
    + rewrite IH. split; [by right|]. intros [->|H]; [|done].
      assert (Point_eqb p p = true) by by apply Point_eqb_eq. congruence.
Qed.

(** X6.  [collides] answers [true] exactly for a cell outside the board or a
    cell of the snake other than its last one. *)
Theorem snake_collides_spec (g : Game) (head : Point) :
  collides g head = true
  <-> ~ in_bounds head \/ head ∈ take (List.length (snake g) - 1) (snake g).
Proof.
  unfold collides, in_bounds. rewrite <- hits_body_spec.
  destruct (Z.ltb_spec (px head) 0); [split; [intros _; left; lia | done]|].
  destruct (Z.geb_spec (px head) BoardWidth); [split; [intros _; left; lia | done]|].
  destruct (Z.ltb_spec (py head) 0); [split; [intros _; left; lia | done]|].
  destruct (Z.geb_spec (py head) BoardHeight); [split; [intros _; left; lia | done]|].
  cbn. split; [by right|]. intros [?|?]; [lia | done].
Qed.

End SnakeProofs.

(** * Package main: properties *)

Module MainProofs.
Import Main.

Lemma menu_key_range (m m' : Menu) (ev : EventKey) :
  options m = options NewMenu -> 0 <= selected m <= 2 ->
  menu_key m ev = Stay m' ->
  options m' = options NewMenu /\ 0 <= selected m' <= 2.
Proof.
  intros Ho Hs. unfold menu_key. rewrite Ho.
  change (Int.sub (Z.of_nat (List.length (options NewMenu))) 1) with 2.
  destruct (_ || _); [done|].
  destruct (evKey ev); try (intros [= <-]; done).
  - destruct (Z.eqb_spec (selected m) 0); [done|].
    destruct (Z.eqb_spec (selected m) 1); [done|].
    destruct (Z.eqb_spec (selected m) 2); [done|]. lia.
  - destruct (Z.gtb_spec (selected m) 0); intros [= <-]; [|done].
    cbn [set_selected options selected]. split; [done|].
    unfold Int.sub. rewrite wrap_small; unfold Int.in_range; lia.
  - destruct (Z.ltb_spec (selected m) 2); intros [= <-]; [|done].
    cbn [set_selected options selected]. split; [done|].
    unfold Int.add. rewrite wrap_small; unfold Int.in_range; lia.
Qed.

Lemma Run_range (evs : list Event) : forall m m',
  options m = options NewMenu -> 0 <= selected m <= 2 ->
  Run evs m = Stay m' ->
  options m' = options NewMenu /\ 0 <= selected m' <= 2.
Proof.
  induction evs as [|e rest IH]; intros m m' Ho Hs.
  - intros [= <-]. done.
  - cbn [Run]. destruct (menu_event m e) as [m1| |] eqn:E; [|done|done].
    intros Hrun. assert (options m1 = options NewMenu /\ 0 <= selected m1 <= 2) as [Ho1 Hs1].
    { destruct e as [ev| |]; cbn [menu_event] in E.
      - by apply (menu_key_range m m1 ev).
      - by injection E as <-.
      - by injection E as <-. }
    by apply (IH m1 m').
Qed.

(** X18.  The menu selection stays on an entry, and Enter always decides:
    whatever events the menu has handled, while it is still open the
    selection is the index of one of its three entries, and an Enter key
    then leaves the menu (with a game, or by ending the process); it is
    never ignored. *)
Theorem menu_selection_in_range (evs : list Event) (m : Menu) :
  Run evs NewMenu = Stay m ->
  0 <= selected m < Z.of_nat (List.length (options m))
  /\ forall ev, evKey ev = KeyEnter ->
       menu_key m ev = Chosen GameTetris \/ menu_key m ev = Chosen GameSnake
       \/ menu_key m ev = ExitProcess.
Proof.
  intros Hrun.
  destruct (Run_range evs NewMenu m eq_refl ltac:(done) Hrun) as [Ho Hs].
  rewrite Ho. split; [cbn; lia|].
  intros ev Hk. unfold menu_key. rewrite Hk.
  destruct (_ || _); [by right; right|].
  destruct (Z.eqb_spec (selected m) 0); [by left|].
  destruct (Z.eqb_spec (selected m) 1); [by right; left|].
  destruct (Z.eqb_spec (selected m) 2); [by right; right|]. lia.
Qed.

End MainProofs.

(** * Reset, in both packages *)

(** C8, counterexample.  Two resets in a row with the source [counting]:
    [nextPiece] is 2, then 4, and [pieceX] is 3, then 4. *)
Lemma reset_redraws_the_next_piece :
  exists t1 t2,
    Tetris.reset (Tetris.NewGame Tetris.counting) = Done t1
    /\ Tetris.reset t1 = Done t2
    /\ Tetris.nextPiece t1 = 2 /\ Tetris.nextPiece t2 = 4
    /\ Tetris.pieceX t1 = 3 /\ Tetris.pieceX t2 = 4.
Proof.
  eexists _, _. split; [vm_compute; reflexivity|].
  split; [vm_compute; reflexivity|]. repeat split.
Qed.

(** C8, as amended.  Two resets in a row give two states that agree on every
    field but the food and the random source (Snake), and on every field but
    [currPiece], [currShape], [pieceX], [nextPiece] and the random source
    (Tetris). *)
Theorem reset_twice (s : Snake.Game) (t : Tetris.Game) :
  rect Snake.BoardHeight Snake.BoardWidth (Snake.board s) ->
  rect Tetris.BoardHeight Tetris.BoardWidth (Tetris.board t) ->
  (exists s1 s2,
     Snake.reset s = Done s1 /\ Snake.reset s1 = Done s2
     /\ Snake.set_rng (Snake.set_food s2 (Snake.food s1)) (Snake.rng s1) = s1)
  /\ (exists t1 t2,
        Tetris.reset t = Done t1 /\ Tetris.reset t1 = Done t2
        /\ Tetris.set_rng
             (Tetris.set_nextPiece
                (Tetris.set_pieceX
                   (Tetris.set_currShape
                      (Tetris.set_currPiece t2 (Tetris.currPiece t1))
                      (Tetris.currShape t1))
                   (Tetris.pieceX t1))
                (Tetris.nextPiece t1))
             (Tetris.rng t1)
           = t1).
Proof.
  intros Hs Ht. split.
  - eexists _, _. split; [by apply SnakeProofs.snake_reset_spec|].
    split; [apply SnakeProofs.snake_reset_spec; apply rect_make|]. reflexivity.
  - destruct (TetrisProofs.reset_fields t Ht)
      as (t1 & Hr1 & Hb1 & Hs1 & Hl1 & Hv1 & Hy1 & Hp1 & Ho1).
    assert (Ht1 : rect Tetris.BoardHeight Tetris.BoardWidth (Tetris.board t1)).
    { rewrite Hb1. apply rect_make. }
    destruct (TetrisProofs.reset_fields t1 Ht1)
      as (t2 & Hr2 & Hb2 & Hs2 & Hl2 & Hv2 & Hy2 & Hp2 & Ho2).
    exists t1, t2. split; [done|]. split; [done|].
    destruct t1, t2. cbn in *. by subst.
Qed.

(** * The statements at sample states *)

Ltac sample_rect := split; [reflexivity | repeat constructor].

Lemma collides_boundary_asymmetry_witness :
  rect Tetris.BoardHeight Tetris.BoardWidth (Tetris.board Tetris.stuck)
  /\ exists c, Tetris.collides Tetris.stuck = Done c
       /\ (c = true <->
           exists y x, Tetris.filled (Tetris.currShape Tetris.stuck) y x
                       /\ Tetris.cell_hits Tetris.stuck y x)
       /\ ((forall y x, Tetris.filled (Tetris.currShape Tetris.stuck) y x ->
              Tetris.boardY_of Tetris.stuck y < 0
              /\ 0 <= Tetris.boardX_of Tetris.stuck x < Tetris.BoardWidth) ->
           c = false).
Proof.
  split; [sample_rect|].
  apply (TetrisProofs.collides_boundary_asymmetry Tetris.stuck). sample_rect.
Defined.

Lemma rotate_rollback_witness :
  rect Tetris.BoardHeight Tetris.BoardWidth (Tetris.board Tetris.stuck)
  /\ Tetris.currShape Tetris.stuck <> []
  /\ exists rotated c,
       Tetris.clockwise_of (Tetris.currShape Tetris.stuck) rotated
       /\ Tetris.collides (Tetris.set_currShape Tetris.stuck rotated) = Done c
       /\ Tetris.rotate Tetris.stuck
          = Done (if c then Tetris.stuck else Tetris.set_currShape Tetris.stuck rotated).
Proof.
  split; [sample_rect|]. split; [discriminate|].
  apply (TetrisProofs.rotate_rollback Tetris.stuck 2);
    [sample_rect | discriminate | repeat constructor].
Defined.

Lemma clearLines_postcondition_witness :
  rect Tetris.BoardHeight Tetris.BoardWidth (Tetris.board Tetris.two_rows)
  /\ Tetris.count_complete (Tetris.board Tetris.two_rows) = 2
  /\ Tetris.clearLines Tetris.two_rows
     = Done (Tetris.after_clear Tetris.two_rows 2 300).
Proof.
  split; [sample_rect|]. split; [reflexivity|].
  destruct (TetrisProofs.clearLines_postcondition Tetris.two_rows) as (_ & _ & Hk);
    [sample_rect|].
  destruct Hk as (points & Hp & Hrun & _); [split; [reflexivity | discriminate]|].
  injection Hp as <-. exact Hrun.
Defined.

Lemma scoreTable_access_in_bounds_witness :
  rect Tetris.BoardHeight Tetris.BoardWidth (Tetris.board Tetris.stuck)
  /\ (Tetris.clearLines Tetris.stuck = Panic
      <-> 4 < Tetris.count_complete (Tetris.board Tetris.stuck))
  /\ exists g1 points g2,
       Tetris.lockPiece Tetris.stuck = Done g1
       /\ 0 <= Tetris.count_complete (Tetris.board g1) <= 4
       /\ index Tetris.scoreTable (Tetris.count_complete (Tetris.board g1)) = Done points
       /\ Tetris.clearLines g1 = Done g2.
Proof.
  split; [sample_rect|].
  destruct (TetrisProofs.scoreTable_access_in_bounds Tetris.stuck) as [Hpanic Hlock];
    [sample_rect|].
  split; [exact Hpanic|]. apply Hlock; [reflexivity | simpl; lia].
Defined.

Lemma ghost_accuracy_witness :
  Tetris.collides Tetris.fresh = Done false
  /\ exists (n : nat) (finalY : Z),
       let landed := Tetris.set_pieceY Tetris.fresh finalY in
       finalY = Int.wrap (Tetris.pieceY Tetris.fresh + Z.of_nat n)
       /\ (forall fuel, (n < fuel)%nat ->
             Tetris.getGhostPosition fuel Tetris.fresh
             = Done (Tetris.pieceX Tetris.fresh, finalY))
       /\ Tetris.falls Tetris.fresh n landed
       /\ Tetris.move landed 0 1 = Done (landed, false)
       /\ Tetris.drop landed = (g' <- Tetris.settle landed ;; Done (g', false))
       /\ (forall fuel, (n < fuel)%nat ->
             Tetris.hardDrop fuel Tetris.fresh = Tetris.settle landed).
Proof.
  split; [reflexivity|].
  apply (TetrisProofs.ghost_accuracy Tetris.fresh).
  - sample_rect.
  - unfold Int.in_range. simpl. lia.
  - unfold Int.in_range. simpl. lia.
  - exists 0%nat, 0%nat, [1; 1]. split; reflexivity.
  - reflexivity.
Defined.


Lemma direction_request_guard_witness :
  Snake.gameOver Snake.waiting = false
  /\ Snake.handleKey (Snake.arrow Snake.Left) Snake.waiting = Done (Continue Snake.waiting).
Proof.
  split; [reflexivity|].
  destruct (SnakeProofs.direction_request_guard Snake.waiting) as [Hpaused _]; [reflexivity|].
  apply Hpaused; [reflexivity | discriminate | reflexivity].
Defined.

Lemma snake_board_never_written_witness :
  Snake.reachable Snake.bitten
  /\ Snake.board Snake.bitten = make_grid Snake.BoardHeight Snake.BoardWidth
  /\ Snake.scan_rows (Snake.board Snake.bitten) (Z.to_nat Snake.BoardHeight) 0 []
     = Done Snake.all_cells.
Proof.
  assert (H : Snake.reachable Snake.bitten).
  { apply (Snake.reach_start Snake.head_draw). vm_compute. reflexivity. }
  split; [exact H|].
  destruct (SnakeProofs.snake_board_never_written Snake.bitten H) as (Hb & _ & Hscan & _).
  split; [exact Hb | exact Hscan].
Defined.

Lemma reset_twice_witness :
  rect Snake.BoardHeight Snake.BoardWidth (Snake.board Snake.bitten)
  /\ rect Tetris.BoardHeight Tetris.BoardWidth (Tetris.board Tetris.stuck)
  /\ (exists s1 s2,
        Snake.reset Snake.bitten = Done s1 /\ Snake.reset s1 = Done s2
        /\ Snake.set_rng (Snake.set_food s2 (Snake.food s1)) (Snake.rng s1) = s1)
  /\ (exists t1 t2,
        Tetris.reset Tetris.stuck = Done t1 /\ Tetris.reset t1 = Done t2
        /\ Tetris.set_rng
             (Tetris.set_nextPiece
                (Tetris.set_pieceX
                   (Tetris.set_currShape
                      (Tetris.set_currPiece t2 (Tetris.currPiece t1))
                      (Tetris.currShape t1))
                   (Tetris.pieceX t1))
                (Tetris.nextPiece t1))
             (Tetris.rng t1)
           = t1).
Proof.
  split; [sample_rect|]. split; [sample_rect|].
  apply (reset_twice Snake.bitten Tetris.stuck); sample_rect.
Defined.


Lemma snake_length_and_score_witness :
  Snake.reachable Snake.bitten
  /\ Snake.length Snake.bitten = 3 /\ Snake.score Snake.bitten = 0.
Proof.
  assert (H : Snake.reachable Snake.bitten).
  { apply (Snake.reach_start Snake.head_draw). vm_compute. reflexivity. }
  split; [exact H|].
  destruct (SnakeProofs.snake_length_and_score Snake.bitten H) as (_ & _ & _ & Hplain).
  apply Hplain. simpl. lia.
Defined.

Lemma snake_stays_on_board_witness :
  Snake.reachable Snake.bitten
  /\ Snake.in_bounds (Snake.food Snake.bitten)
  /\ Forall Snake.in_bounds (Snake.snake Snake.bitten).
Proof.
  assert (H : Snake.reachable Snake.bitten).
  { apply (Snake.reach_start Snake.head_draw). vm_compute. reflexivity. }
  split; [exact H|]. apply (SnakeProofs.snake_stays_on_board Snake.bitten H).
Defined.

Lemma snake_run_never_panics_witness :
  Snake.reachable Snake.bitten
  /\ (forall ev, exists c, Snake.handleKey ev Snake.bitten = Done c)
  /\ (exists g', Snake.tick Snake.bitten = Done g')
  /\ (exists g', Snake.reset Snake.bitten = Done g')
  /\ (exists g' moved, Snake.move Snake.bitten = Done (g', moved)).
Proof.
  assert (H : Snake.reachable Snake.bitten).
  { apply (Snake.reach_start Snake.head_draw). vm_compute. reflexivity. }
  split; [exact H|]. apply (SnakeProofs.snake_run_never_panics Snake.bitten H).
Defined.

Lemma getSpeed_bounds_witness :
  Int.in_range (Snake.score Snake.bitten)
  /\ Int.in_range (Snake.score Snake.winning)
  /\ Snake.score Snake.bitten <= Snake.score Snake.winning
  /\ Snake.getSpeed Snake.winning <= Snake.getSpeed Snake.bitten
  /\ Snake.SpeedFast <= Snake.getSpeed Snake.bitten.
Proof.
  assert (H0 : Int.in_range (Snake.score Snake.bitten)).
  { unfold Int.in_range. simpl. lia. }
  assert (H1 : Int.in_range (Snake.score Snake.winning)).
  { unfold Int.in_range. simpl. lia. }
  assert (H2 : Snake.score Snake.bitten <= Snake.score Snake.winning).
  { simpl. lia. }
  split; [exact H0|]. split; [exact H1|]. split; [exact H2|].
  destruct (SnakeProofs.getSpeed_bounds Snake.bitten Snake.winning H0 H1 H2)
    as (_ & Hle & Hfloor & _).
  split; [exact Hle | exact Hfloor].
Defined.

Lemma rotate_four_times_witness :
  rect Tetris.BoardHeight Tetris.BoardWidth (Tetris.board Tetris.turning)
  /\ rect 2 3 (Tetris.currShape Tetris.turning)
  /\ Tetris.rotate Tetris.turning
     = Done (Tetris.set_currShape Tetris.turning
               (Tetris.quarter_turn (Tetris.currShape Tetris.turning)))
  /\ (g1 <- Tetris.rotate Tetris.turning ;; g2 <- Tetris.rotate g1 ;;
      g3 <- Tetris.rotate g2 ;; Tetris.rotate g3) = Done Tetris.turning.
Proof.
  split; [sample_rect|]. split; [sample_rect|].
  apply (TetrisProofs.rotate_four_times Tetris.turning 2 3);
    [sample_rect | lia | lia | sample_rect
     | reflexivity | reflexivity | reflexivity | reflexivity].
Defined.

Lemma piece_never_overlaps_witness :
  Tetris.reachable Tetris.fresh
  /\ Tetris.gameOver Tetris.fresh = false
  /\ Tetris.collides Tetris.fresh = Done (Tetris.gameOver Tetris.fresh)
  /\ forall y x, Tetris.filled (Tetris.currShape Tetris.fresh) y x ->
                 ~ Tetris.cell_hits Tetris.fresh y x.
Proof.
  assert (H : Tetris.reachable Tetris.fresh).
  { apply (Tetris.reach_start Tetris.only_O). vm_compute. reflexivity. }
  split; [exact H|]. split; [reflexivity|].
  destruct (TetrisProofs.piece_never_overlaps Tetris.fresh H) as [Hc Hfree].
  split; [exact Hc|]. apply Hfree. reflexivity.
Defined.

Lemma board_stays_well_formed_witness :
  Tetris.reachable Tetris.fresh
  /\ rect Tetris.BoardHeight Tetris.BoardWidth (Tetris.board Tetris.fresh)
  /\ Tetris.cells_ok (Tetris.board Tetris.fresh)
  /\ Tetris.count_complete (Tetris.board Tetris.fresh) = 0.
Proof.
  assert (H : Tetris.reachable Tetris.fresh).
  { apply (Tetris.reach_start Tetris.only_O). vm_compute. reflexivity. }
  split; [exact H|]. apply (TetrisProofs.board_stays_well_formed Tetris.fresh H).
Defined.

Lemma pieces_stay_well_formed_witness :
  Tetris.reachable Tetris.fresh
  /\ 0 <= Tetris.currPiece Tetris.fresh < 7
  /\ 1 <= Tetris.nextPiece Tetris.fresh <= 7
  /\ (exists shape,
        index Tetris.Shapes (Int.sub (Tetris.nextPiece Tetris.fresh) 1) = Done shape)
  /\ Tetris.shape_ok (Tetris.currShape Tetris.fresh)
  /\ 0 <= Tetris.pieceY Tetris.fresh <= Tetris.BoardHeight.
Proof.
  assert (H : Tetris.reachable Tetris.fresh).
  { apply (Tetris.reach_start Tetris.only_O). vm_compute. reflexivity. }
  split; [exact H|]. apply (TetrisProofs.pieces_stay_well_formed Tetris.fresh H).
Defined.

Lemma level_follows_lines_witness :
  Tetris.reachable Tetris.fresh
  /\ Tetris.level Tetris.fresh = Tetris.lines Tetris.fresh / 10 + 1
  /\ 1 <= Tetris.level Tetris.fresh
  /\ exists ms, Tetris.getDropInterval Tetris.fresh = Done ms /\ 50 <= ms <= 500.
Proof.
  assert (H : Tetris.reachable Tetris.fresh).
  { apply (Tetris.reach_start Tetris.only_O). vm_compute. reflexivity. }
  split; [exact H|].
  destruct (TetrisProofs.level_follows_lines Tetris.fresh H) as [_ Hplain].
  apply Hplain. change (2 ^ 62) with 4611686018427387904. simpl. lia.
Defined.

Lemma tetris_run_never_panics_witness :
  Tetris.reachable Tetris.fresh
  /\ (exists c, Tetris.handleKey 30 Tetris.key_space Tetris.fresh = Done c)
  /\ (exists g', Tetris.tick Tetris.fresh = Done g')
  /\ (exists g', Tetris.reset Tetris.fresh = Done g').
Proof.
  assert (H : Tetris.reachable Tetris.fresh).
  { apply (Tetris.reach_start Tetris.only_O). vm_compute. reflexivity. }
  split; [exact H|].
  destruct (TetrisProofs.tetris_run_never_panics Tetris.fresh H) as (Hkey & Htick & Hreset).
  split; [apply Hkey; unfold Tetris.BoardHeight; lia|].
  split; [exact Htick | exact Hreset].
Defined.

Lemma clearLines_twice_witness :
  rect Tetris.BoardHeight Tetris.BoardWidth (Tetris.board Tetris.two_rows)
  /\ Tetris.count_complete (Tetris.board Tetris.two_rows) <= 4
  /\ exists g1, Tetris.clearLines Tetris.two_rows = Done g1
       /\ Tetris.board g1 = Tetris.compacted (Tetris.board Tetris.two_rows)
       /\ rect Tetris.BoardHeight Tetris.BoardWidth (Tetris.board g1)
       /\ Tetris.count_complete (Tetris.board g1) = 0
       /\ Tetris.clearLines g1 = Done g1.
Proof.
  assert (H : Tetris.count_complete (Tetris.board Tetris.two_rows) <= 4).
  { assert (E : Tetris.count_complete (Tetris.board Tetris.two_rows) = 2) by reflexivity.
    rewrite E. lia. }
  split; [sample_rect|]. split; [exact H|].
  apply (TetrisProofs.clearLines_twice Tetris.two_rows); [sample_rect | exact H].
Defined.

Lemma move_round_trip_witness :
  rect Tetris.BoardHeight Tetris.BoardWidth (Tetris.board Tetris.fresh)
  /\ Tetris.collides Tetris.fresh = Done false
  /\ Tetris.move Tetris.fresh 1 1
     = Done (Tetris.set_pieceY (Tetris.set_pieceX Tetris.fresh 5) 1, true)
  /\ Tetris.move (Tetris.set_pieceY (Tetris.set_pieceX Tetris.fresh 5) 1) (- 1) (- 1)
     = Done (Tetris.fresh, true).
Proof.
  split; [sample_rect|]. split; [reflexivity|]. split; [reflexivity|].
  apply (TetrisProofs.move_round_trip Tetris.fresh _ 1 1).
  - sample_rect.
  - unfold Int.in_range. simpl. lia.
  - unfold Int.in_range. simpl. lia.
  - reflexivity.
  - reflexivity.
Defined.

Lemma ghost_within_board_witness :
  Tetris.reachable Tetris.fresh
  /\ Tetris.gameOver Tetris.fresh = false
  /\ exists ghostY,
       (forall fuel, (Z.to_nat Tetris.BoardHeight < fuel)%nat ->
          Tetris.getGhostPosition fuel Tetris.fresh
          = Done (Tetris.pieceX Tetris.fresh, ghostY))
       /\ Tetris.pieceY Tetris.fresh <= ghostY < Tetris.BoardHeight
       /\ Tetris.collides (Tetris.set_pieceY Tetris.fresh ghostY) = Done false
       /\ Tetris.collides (Tetris.set_pieceY Tetris.fresh (Int.add ghostY 1)) = Done true.
Proof.
  assert (H : Tetris.reachable Tetris.fresh).
  { apply (Tetris.reach_start Tetris.only_O). vm_compute. reflexivity. }
  split; [exact H|]. split; [reflexivity|].
  apply (TetrisProofs.ghost_within_board Tetris.fresh H). reflexivity.
Defined.

Lemma lockPiece_cells_witness :
  rect Tetris.BoardHeight Tetris.BoardWidth (Tetris.board Tetris.turning)
  /\ exists b', Tetris.lockPiece Tetris.turning = Done (Tetris.set_board Tetris.turning b')
       /\ cell b' 5 5 = Some 3
       /\ cell b' 5 4 = Some 0.
Proof.
  split; [sample_rect|].
  destruct (TetrisProofs.lockPiece_cells Tetris.turning) as (b' & Hrun & _ & Hhit & Hmiss);
    [sample_rect|].
  exists b'. split; [exact Hrun|]. split.
  - apply (Hhit 0%nat 1%nat 5%nat 5%nat);
      [exists [0; 1; 0]; split; reflexivity | reflexivity | reflexivity
       | unfold Tetris.BoardHeight; lia | unfold Tetris.BoardWidth; lia].
  - rewrite (Hmiss 5%nat 4%nat); [reflexivity|].
    intros y x (row & Hrow & Hx) [HY HX].
    destruct y as [|[|y]]; [| discriminate HY | discriminate Hrow].
    injection Hrow as <-.
    destruct x as [|[|[|x]]]; discriminate.
Defined.

Lemma menu_selection_in_range_witness :
  Main.Run Main.to_the_last Main.NewMenu = Main.Stay (Main.set_selected Main.NewMenu 2)
  /\ Main.menu_key (Main.set_selected Main.NewMenu 2) (mkEventKey KeyEnter 0)
     = Main.ExitProcess.
Proof.
  split; [reflexivity|].
  destruct (MainProofs.menu_selection_in_range Main.to_the_last
              (Main.set_selected Main.NewMenu 2)) as [_ Henter]; [reflexivity|].
  destruct (Henter (mkEventKey KeyEnter 0)) as [H|[H|H]];
    [reflexivity | discriminate H | discriminate H | exact H].
Defined.
